(** * contracts.h: design-by-contract macros for C and C++

    A verification development for [include/contracts.h] (v1.5).

    The header is a preprocessor artefact, so the development has three
    layers that mirror how the header acts on a translation unit:

    - [Preprocessor]: the macro table of a translation unit and the
      effect on it of each inclusion of the header;
    - [Macros]: the replacement lists of the header's macros, read
      against the macro table current at the place of use (macros are
      bound late: [requires] written once behaves according to the last
      definition of [CONTRACTS_ASSERT]);
    - [exec]: the execution of the expanded code, with the process
      outcome (normal completion, a thrown exception, [abort]) and the
      contents of the standard error stream.

    [Exceptions] and [Platform] hold what the header takes from the host
    language and the C library.  [expand] and [argument] describe how a
    condition as it is written reaches the [#] operator: the macros of
    the header pass their argument on, so the macros named in it are
    replaced first. *)

From Stdlib Require Import NArith Ascii String DecimalString.
From stdpp Require Import base option strings list gmap fin_maps.

Local Open Scope string_scope.

(** ** Preprocessing tokens *)

(** A preprocessing token: its spelling and whether white space stands
    before it. *)
Record Token : Type := mkToken { leading_space : bool; spelling : string }.

#[global] Instance Token_eq_dec : EqDecision Token.
Proof. solve_decision. Defined.

(** The [#] operator (C99 6.10.3.2): the spellings of the tokens, white
    space between two tokens as one space, none before the first.  (The
    backslashes [#] puts into string literals make the value of the
    resulting literal this text.) *)
Fixpoint stringify_rest (ts : list Token) : string :=
  match ts with
  | [] => ""
  | t :: ts =>
      (if leading_space t then " " else "") +:+ spelling t +:+ stringify_rest ts
  end.

Definition stringify (ts : list Token) : string :=
  match ts with
  | [] => ""
  | t :: ts => spelling t +:+ stringify_rest ts
  end.

(** ** The preprocessor state and the header seen as a directive list *)

Module Preprocessor.

(** The replacement lists the model distinguishes.  Every [#define] of
    the header has its own tag; [Body_flag] stands for an object-like
    macro tested only with [#ifdef] ([NDEBUG], [EXDEBUG], [H_CONTRACTS],
    [__cplusplus]). *)
Inductive MacroBody : Type :=
| Body_flag
(* l.68   #define if_debug(code) if_else_debug(code, (void) 0) *)
| Body_if_debug
(* l.74   #define if_not_debug(code) if_else_debug((void) 0, code) *)
| Body_if_not_debug
(* l.83   #define requires(exp) (CONTRACTS_ASSERT(exp)) *)
| Body_requires
(* l.92   #define ensures(exp) (CONTRACTS_ASSERT(exp)) *)
| Body_ensures
(* l.127  #define validate(object) (CONTRACTS_ASSERT((object).isValid())) *)
| Body_validate
(* l.140  #define assert_exception(code, ex) if_debug( ... ) *)
| Body_assert_exception
(* l.187  #define if_else_debug(code_if, code_else) code_else *)
| Body_if_else_debug_code_else
(* l.191  #define if_else_debug(code_if, code_else) code_if *)
| Body_if_else_debug_code_if
(* l.189  #define CONTRACTS_ASSERT(expr) (void) 0 *)
| Body_CONTRACTS_ASSERT_void
(* l.193  #define CONTRACTS_ASSERT(expr)
            ((expr) ? (void) 0 : throw ContractViolated(#expr)) *)
| Body_CONTRACTS_ASSERT_throw
(* l.195  #define CONTRACTS_ASSERT(expr) assert(expr) *)
| Body_CONTRACTS_ASSERT_assert
(* <assert.h> without NDEBUG: the checking assert *)
| Body_assert_checking
(* <assert.h> with NDEBUG:  #define assert(ignore) ((void)0) *)
| Body_assert_ignore
(* a macro of another standard header, with the replacement list the
   implementation gives it *)
| Body_implementation
(* an object-like macro of the translation unit:
   #define name replacement *)
| Body_object (replacement : list Token).

#[global] Instance MacroBody_eq_dec : EqDecision MacroBody.
Proof. solve_decision. Defined.

(** The macro table: macro name to replacement list. *)
Abbreviation Env := (gmap string MacroBody).

(** [#ifdef name] / [defined(name)] *)
Definition defined (name : string) (env : Env) : bool :=
  bool_decide (is_Some (env !! name)).

(** [#define name body].  Defining a macro again is accepted only with
    the same replacement list (C99 6.10.3p2); otherwise the translation
    unit is rejected. *)
Definition define (name : string) (body : MacroBody) (env : Env) : option Env :=
  match env !! name with
  | None => Some (<[name := body]> env)
  | Some old => if decide (old = body) then Some env else None
  end.

(** [#undef name]; a name that is not a macro is ignored. *)
Definition undef (name : string) (env : Env) : Env := delete name env.

(** The two host languages of the header. *)
Inductive Lang : Type := LangC | LangCpp.

#[global] Instance Lang_eq_dec : EqDecision Lang.
Proof. solve_decision. Defined.

Definition is_cpp (lang : Lang) : bool :=
  match lang with LangCpp => true | LangC => false end.

(** The macro table at the start of a translation unit: the compiler
    predefines [__cplusplus] in C++ and not in C. *)
Definition initial_env (lang : Lang) : Env :=
  match lang with
  | LangCpp => {[ "__cplusplus" := Body_flag ]}
  | LangC => ∅
  end.

(** <assert.h> / <cassert> (C99 7.2): every inclusion removes [assert]
    and defines it again according to the [NDEBUG] of that moment. *)
Definition assert_h (env : Env) : Env :=
  let env := undef "assert" env in
  if defined "NDEBUG" env
  then <["assert" := Body_assert_ignore]> env
  else <["assert" := Body_assert_checking]> env.

(** The other standard headers.  Each defines the macros the C
    standard prescribes for it (C99 7.17, 7.20, 7.19.1; <cstddef>,
    <cstdlib> and <cstdio> provide the same ones), with replacement
    lists of the implementation's choice, and does so however often it
    is included (C99 7.1.2).  <stdexcept> and <string> prescribe no
    macro.  What an implementation's headers define beyond that,
    reserved identifiers and extensions, is not held in the table. *)
Definition library_header (names : list string) (env : Env) : Env :=
  foldr (λ name env, <[name := Body_implementation]> env) env names.

Definition stddef_macros : list string := ["NULL"; "offsetof"].

Definition stdlib_macros : list string :=
  ["EXIT_FAILURE"; "EXIT_SUCCESS"; "MB_CUR_MAX"; "NULL"; "RAND_MAX"].

Definition stdio_macros : list string :=
  ["BUFSIZ"; "EOF"; "FILENAME_MAX"; "FOPEN_MAX"; "L_tmpnam"; "NULL";
   "SEEK_CUR"; "SEEK_END"; "SEEK_SET"; "TMP_MAX"; "_IOFBF"; "_IOLBF";
   "_IONBF"; "stderr"; "stdin"; "stdout"].

Definition stddef_h : Env → Env := library_header stddef_macros.
Definition stdlib_h : Env → Env := library_header stdlib_macros.
Definition stdio_h : Env → Env := library_header stdio_macros.
Definition stdexcept_h : Env → Env := library_header [].
Definition string_h : Env → Env := library_header [].

(** The macros of the standard headers other than [assert]. *)
Definition standard_macros : list string :=
  stddef_macros ++ stdlib_macros ++ stdio_macros.

(** Lines 41-53: the standard headers, in the order of the source. *)
Definition standard_headers (env : Env) : Env :=
  if defined "__cplusplus" env
  then string_h (stdexcept_h (stdio_h (stdlib_h (stddef_h (assert_h env)))))
  else stdio_h (stdlib_h (stddef_h (assert_h env))).

(** Lines 55-169: the part protected by the include guard. *)
Definition guarded_part (env : Env) : option Env :=
  if defined "H_CONTRACTS" env then Some env
  else
    env ← define "H_CONTRACTS" Body_flag env;
    env ← define "if_debug" Body_if_debug env;
    env ← define "if_not_debug" Body_if_not_debug env;
    env ← define "requires" Body_requires env;
    env ← define "ensures" Body_ensures env;
    if defined "__cplusplus" env
    then
      env ← define "validate" Body_validate env;
      define "assert_exception" Body_assert_exception env
    else Some env.

(** Lines 171-197: the part processed at every inclusion. *)
Definition configurable_part (env : Env) : option Env :=
  let env :=
    if defined "if_else_debug" env
    then undef "CONTRACTS_ASSERT" (undef "if_else_debug" env)
    else env in
  if defined "NDEBUG" env then
    env ← define "if_else_debug" Body_if_else_debug_code_else env;
    define "CONTRACTS_ASSERT" Body_CONTRACTS_ASSERT_void env
  else
    env ← define "if_else_debug" Body_if_else_debug_code_if env;
    if defined "EXDEBUG" env && defined "__cplusplus" env
    then define "CONTRACTS_ASSERT" Body_CONTRACTS_ASSERT_throw env
    else define "CONTRACTS_ASSERT" Body_CONTRACTS_ASSERT_assert env.

(** [#include "contracts.h"] *)
Definition contracts_h (env : Env) : option Env :=
  env ← guarded_part (standard_headers env);
  configurable_part env.

(** What a translation unit does to the configuration between the
    places where it uses the macros. *)
Inductive Flag : Type := NDEBUG | EXDEBUG.

Definition flag_name (f : Flag) : string :=
  match f with NDEBUG => "NDEBUG" | EXDEBUG => "EXDEBUG" end.

Inductive Directive : Type :=
| DefineFlag (f : Flag)        (* #define NDEBUG, or -DNDEBUG *)
| UndefFlag (f : Flag)         (* #undef NDEBUG *)
| IncludeAssert                (* #include <assert.h> *)
| IncludeContracts.            (* #include "contracts.h" *)

Definition directive (d : Directive) (env : Env) : option Env :=
  match d with
  | DefineFlag f => define (flag_name f) Body_flag env
  | UndefFlag f => Some (undef (flag_name f) env)
  | IncludeAssert => Some (assert_h env)
  | IncludeContracts => contracts_h env
  end.

Fixpoint preprocess (ds : list Directive) (env : Env) : option Env :=
  match ds with
  | [] => Some env
  | d :: ds => env ← directive d env; preprocess ds env
  end.

End Preprocessor.

Import Preprocessor.

(** ** Exceptions of the host language *)

Module Exceptions.

(** The types a C++ program can throw, as far as the header and its
    users are concerned: the standard hierarchy the header builds on,
    the header's own class, and the types of the user. *)
Inductive ExnType : Type :=
| std_exception
| std_logic_error                          (* : public std::exception *)
| std_out_of_range                         (* : public std::logic_error *)
| std_runtime_error                        (* : public std::exception *)
(* l.102  class ContractViolated : public std::logic_error *)
| ContractViolated
| Derived (name : string) (base : ExnType) (* class name : public base *)
| Unrelated (name : string).               (* a type with no base: int, ... *)

#[global] Instance ExnType_eq_dec : EqDecision ExnType.
Proof. solve_decision. Defined.

(** The type itself followed by its public bases, nearest first. *)
Fixpoint ancestors (t : ExnType) : list ExnType :=
  t :: match t with
       | std_exception => []
       | std_logic_error => [std_exception]
       | std_out_of_range => [std_logic_error; std_exception]
       | std_runtime_error => [std_exception]
       | ContractViolated => [std_logic_error; std_exception]
       | Derived _ base => ancestors base
       | Unrelated _ => []
       end.

(** A thrown object: its dynamic type and the message [what()] gives. *)
Record Exn : Type := mkExn { exn_type : ExnType; exn_what : string }.

(** l.111  explicit ContractViolated(const std::string &what)
             : logic_error(what) {} *)
Definition ContractViolated_new (what : string) : Exn :=
  {| exn_type := ContractViolated; exn_what := what |}.

(** The type named in a [catch] clause, with its spelling for [#]. *)
Record Handler : Type := mkHandler { handler_text : string; handler_type : ExnType }.

Inductive CatchClause : Type :=
| CatchType (ex : Handler)     (* catch (ex) *)
| CatchAll.                    (* catch (...) *)

(** A handler for [ex] takes an object of type [ex] or of a class
    publicly derived from it. *)
Definition matches (ex : ExnType) (e : Exn) : bool :=
  bool_decide (ex ∈ ancestors (exn_type e)).

Definition catches (k : CatchClause) (e : Exn) : bool :=
  match k with
  | CatchType ex => matches (handler_type ex) e
  | CatchAll => true
  end.

End Exceptions.

Import Exceptions.

(** ** The platform: integer widths and the C library's [assert] *)

Module Platform.

(** Widths of [size_t] and [unsigned long]. *)
Record Widths : Type := mkWidths { size_t_bits : N; unsigned_long_bits : N }.

Definition LP64 : Widths := {| size_t_bits := 64; unsigned_long_bits := 64 |}.
Definition LLP64 : Widths := {| size_t_bits := 64; unsigned_long_bits := 32 |}.

Definition to_size_t (p : Widths) (n : N) : N := (n mod 2 ^ size_t_bits p)%N.
Definition to_unsigned_long (p : Widths) (n : N) : N :=
  (n mod 2 ^ unsigned_long_bits p)%N.

(** What [%lu] prints. *)
Definition decimal (n : N) : string := NilZero.string_of_uint (N.to_uint n).

Definition newline : string := String "010"%char EmptyString.

(** The place where a macro of the header is used:
    [__FILE__], [__LINE__] and [__func__] there. *)
Record Site : Type := mkSite { site_file : string; site_line : N; site_func : string }.

(** The checking [assert] belongs to the C library.  C99 7.2.1.1: when
    its argument compares equal to zero it writes, in a format the
    implementation defines, the text of the argument, the file name, the
    line number and the function name to the standard error stream and
    calls [abort].  The format is the parameter [assert_message]. *)
Record Libc : Type := mkLibc { assert_message : string -> Site -> string }.

(** [sub] occurs in [s]. *)
Definition occurs_in (sub s : string) : Prop :=
  ∃ pre post, s = pre +:+ sub +:+ post.

(** The same, decided: [sub] starts at some position of [s]. *)
Fixpoint occursb (sub s : string) : bool :=
  String.prefix sub s ||
  match s with
  | EmptyString => false
  | String _ s' => occursb sub s'
  end.

(** A library whose diagnostic has the content C99 asks for. *)
Definition conforming (libc : Libc) : Prop :=
  ∀ text site,
    occurs_in text (assert_message libc text site) ∧
    occurs_in (site_file site) (assert_message libc text site) ∧
    occurs_in (decimal (site_line site)) (assert_message libc text site).

(** The format of the GNU C library,
    ["%s%s%s:%u: %s%sAssertion `%s' failed.\n"], for a program named
    [progname]. *)
Definition glibc (progname : string) : Libc :=
  {| assert_message text site :=
       progname +:+ ": " +:+ site_file site +:+ ":" +:+ decimal (site_line site)
       +:+ ": " +:+ site_func site +:+ ": " +:+ "Assertion `" +:+ text
       +:+ "' failed." +:+ newline |}.

End Platform.

Import Platform.
(** ** Execution: worlds, outcomes and computations *)

(** What can be observed of a run: the contents of the standard error
    stream and the state of the user's program. *)
Record World (Mem : Type) : Type := mkWorld { stderr : string; mem : Mem }.
Arguments mkWorld {Mem} _ _.
Arguments stderr {Mem} _.
Arguments mem {Mem} _.

(** How the evaluation of a piece of code ends. *)
Inductive Outcome (A : Type) : Type :=
| Normal (a : A)         (* control reaches the end *)
| Thrown (e : Exn)       (* an exception propagates out of it *)
| Aborted                (* abort(): abnormal termination, no exit code *)
| Diverged.              (* it never ends *)
Arguments Normal {A} _.
Arguments Thrown {A} _.
Arguments Aborted {A}.
Arguments Diverged {A}.

Definition Comp (Mem A : Type) : Type := World Mem → Outcome A * World Mem.

Definition ret {Mem A} (a : A) : Comp Mem A := λ w, (Normal a, w).

Definition bind {Mem A B} (m : Comp Mem A) (k : A → Comp Mem B) : Comp Mem B :=
  λ w, match m w with
       | (Normal a, w') => k a w'
       | (Thrown e, w') => (Thrown e, w')
       | (Aborted, w') => (Aborted, w')
       | (Diverged, w') => (Diverged, w')
       end.

Definition throw {Mem A} (e : Exn) : Comp Mem A := λ w, (Thrown e, w).

(** [abort()] *)
Definition abort {Mem A} : Comp Mem A := λ w, (Aborted, w).

(** [fprintf(stderr, ...)] with the text already formatted. *)
Definition fprintf_stderr {Mem} (s : string) : Comp Mem () :=
  λ w, (Normal (), {| stderr := stderr w +:+ s; mem := mem w |}).

Declare Scope comp_scope.
Delimit Scope comp_scope with comp.
Notation "'let!' x ':=' m 'in' k" := (bind m (λ x, k))
  (at level 10, x name, m at level 100, k at level 200) : comp_scope.
Notation "m ';;;' k" := (bind m (λ _, k))
  (at level 100, k at level 200, right associativity) : comp_scope.

(** ** The code the macros expand to *)

Section Code.

Variable Mem : Type.

(** A statement of the user, opaque but for what it does. *)
Record Stmt : Type := mkStmt { stmt_run : Comp Mem () }.

(** A condition of the user: what the [#] operator makes of it (the
    spelling of its tokens, after the expansion of the macros in it,
    since it passes through [requires] before it reaches [#expr]) and
    what its evaluation does. *)
Record Cond : Type := mkCond { cond_text : string; cond_eval : Comp Mem bool }.

(** An object expression: its spelling and what [(object).isValid()] does. *)
Record Obj : Type := mkObj { obj_text : string; obj_isValid : Comp Mem bool }.

#[warnings="-register-all"]
Inductive Code : Type :=
| VoidZero                                   (* (void) 0 *)
| UserCode (s : Stmt)
| Paren (c : Code)                           (* ( c ) *)
| Conditional (e : Cond) (c1 c2 : Code)      (* (e) ? c1 : c2 *)
| ThrowContractViolated (what : string)      (* throw ContractViolated(what) *)
| LibcAssert (site : Site) (e : Cond)        (* the checking assert(e) *)
| Seq (c1 c2 : Code)                         (* c1; c2; *)
| IfElse (b : bool) (c1 c2 : Code)           (* if (b) c1 else c2, b a literal *)
| TryCatch (body : Code) (handlers : list (CatchClause * Code))
| Call_contracts_assert_failed (file : string) (line : N) (msg : string)
| EmptyBlock.                                (* {} *)

(** The pieces of user code that occur in an expansion, conditions
    first as [inl], statements as [inr]. *)
Fixpoint user_parts (c : Code) : list (Cond + Stmt) :=
  match c with
  | VoidZero | ThrowContractViolated _ | Call_contracts_assert_failed _ _ _
  | EmptyBlock => []
  | UserCode s => [inr s]
  | Paren c => user_parts c
  | Conditional e c1 c2 => (inl e :: user_parts c1 ++ user_parts c2)%list
  | LibcAssert _ e => [inl e]
  | Seq c1 c2 | IfElse _ c1 c2 => (user_parts c1 ++ user_parts c2)%list
  | TryCatch body handlers =>
      (user_parts body ++
       (fix go (hs : list (CatchClause * Code)) : list (Cond + Stmt) :=
          match hs with
          | [] => []
          | (_, h) :: hs => user_parts h ++ go hs
          end) handlers)%list
  end.

Variable widths : Widths.
Variable libc : Libc.

(** l.161-168
<<
    static inline void
    __contracts_assert_failed(const char *file, size_t line, const char *msg)
    {
      fprintf(stderr, "*** assertion failed at %s:%lu\n%s\n", file,
              (unsigned long) line, msg);
      abort();
    }
>> *)
Definition failure_report (file : string) (line : N) (msg : string) : string :=
  "*** assertion failed at " +:+ file +:+ ":"
  +:+ decimal (to_unsigned_long widths line) +:+ newline +:+ msg +:+ newline.

Definition __contracts_assert_failed (file : string) (line : N) (msg : string)
  : Comp Mem () :=
  (fprintf_stderr (failure_report file line msg) ;;; abort)%comp.

(** The checking [assert] of the C library. *)
Definition libc_assert (site : Site) (e : Cond) : Comp Mem () :=
  (let! b := cond_eval e in
   if b : bool then ret ()
   else fprintf_stderr (assert_message libc (cond_text e) site) ;;; abort)%comp.

Fixpoint exec (c : Code) : Comp Mem () :=
  match c with
  | VoidZero => ret ()
  | UserCode s => stmt_run s
  | Paren c => exec c
  | Conditional e c1 c2 =>
      (let! b := cond_eval e in if b : bool then exec c1 else exec c2)%comp
  | ThrowContractViolated what => throw (ContractViolated_new what)
  | LibcAssert site e => libc_assert site e
  | Seq c1 c2 => (exec c1 ;;; exec c2)%comp
  | IfElse b c1 c2 => if b then exec c1 else exec c2
  | TryCatch body handlers =>
      λ w, match exec body w with
           | (Thrown e, w') =>
               (fix handle (hs : list (CatchClause * Code)) : Outcome () * World Mem :=
                  match hs with
                  | [] => (Thrown e, w')
                  | (k, h) :: hs => if catches k e then exec h w' else handle hs
                  end) handlers
           | r => r
           end
  (* the int __LINE__ is converted to the size_t parameter *)
  | Call_contracts_assert_failed file line msg =>
      __contracts_assert_failed file (to_size_t widths line) msg
  | EmptyBlock => ret ()
  end.

End Code.

Arguments mkStmt {Mem} _.
Arguments stmt_run {Mem} _.
Arguments mkCond {Mem} _ _.
Arguments cond_text {Mem} _.
Arguments cond_eval {Mem} _.
Arguments mkObj {Mem} _ _.
Arguments obj_text {Mem} _.
Arguments obj_isValid {Mem} _.
Arguments VoidZero {Mem}.
Arguments UserCode {Mem} _.
Arguments Paren {Mem} _.
Arguments Conditional {Mem} _ _ _.
Arguments ThrowContractViolated {Mem} _.
Arguments LibcAssert {Mem} _ _.
Arguments Seq {Mem} _ _.
Arguments IfElse {Mem} _ _ _.
Arguments TryCatch {Mem} _ _.
Arguments Call_contracts_assert_failed {Mem} _ _ _.
Arguments EmptyBlock {Mem}.
Arguments user_parts {Mem} _.
Arguments failure_report _ _ _ _ : assert.
Arguments __contracts_assert_failed {Mem} _ _ _ _.
Arguments libc_assert {Mem} _ _ _.
Arguments exec {Mem} _ _ _.

(** ** The macros of the header *)

(** Each macro is a function of the macro table at the place of use and
    of its arguments; the result is [None] where the name is not (or not
    any more) the macro the header defines, which the compiler rejects. *)

Module Macros.

Section Macros.

Context {Mem : Type}.
Variable env : Env.

(** l.187 and l.191: an argument is returned as it is, whatever it is
    (a statement, an expression, a string literal). *)
Definition if_else_debug {A : Type} (code_if code_else : A) : option A :=
  match env !! "if_else_debug" with
  | Some Body_if_else_debug_code_else => Some code_else
  | Some Body_if_else_debug_code_if => Some code_if
  | _ => None
  end.

(** l.68 *)
Definition if_debug (code : Code Mem) : option (Code Mem) :=
  match env !! "if_debug" with
  | Some Body_if_debug => if_else_debug code VoidZero
  | _ => None
  end.

(** l.74 *)
Definition if_not_debug (code : Code Mem) : option (Code Mem) :=
  match env !! "if_not_debug" with
  | Some Body_if_not_debug => if_else_debug VoidZero code
  | _ => None
  end.

(** [assert] of <assert.h>, as last included. *)
Definition assert (site : Site) (e : Cond Mem) : option (Code Mem) :=
  match env !! "assert" with
  | Some Body_assert_checking => Some (LibcAssert site e)
  | Some Body_assert_ignore => Some (Paren VoidZero)
  | _ => None
  end.

(** l.189, l.193 and l.195 *)
Definition CONTRACTS_ASSERT (site : Site) (expr : Cond Mem) : option (Code Mem) :=
  match env !! "CONTRACTS_ASSERT" with
  | Some Body_CONTRACTS_ASSERT_void => Some VoidZero
  | Some Body_CONTRACTS_ASSERT_throw =>
      Some (Paren (Conditional expr VoidZero
                     (ThrowContractViolated (cond_text expr))))
  | Some Body_CONTRACTS_ASSERT_assert => assert site expr
  | _ => None
  end.

(** l.83 *)
Definition requires (site : Site) (exp : Cond Mem) : option (Code Mem) :=
  match env !! "requires" with
  | Some Body_requires => Paren <$> CONTRACTS_ASSERT site exp
  | _ => None
  end.

(** l.92 *)
Definition ensures (site : Site) (exp : Cond Mem) : option (Code Mem) :=
  match env !! "ensures" with
  | Some Body_ensures => Paren <$> CONTRACTS_ASSERT site exp
  | _ => None
  end.

(** The argument [(object).isValid()] that [validate] hands on. *)
Definition isValid_call (object : Obj Mem) : Cond Mem :=
  {| cond_text := "(" +:+ obj_text object +:+ ").isValid()";
     cond_eval := obj_isValid object |}.

(** l.127 *)
Definition validate (site : Site) (object : Obj Mem) : option (Code Mem) :=
  match env !! "validate" with
  | Some Body_validate => Paren <$> CONTRACTS_ASSERT site (isValid_call object)
  | _ => None
  end.

(** The two messages of [assert_exception], l.146-147 and l.152-153. *)
Definition msg_no_exception (ex : Handler) : string :=
  "No exceptions has been thrown " +:+ "(expected: “" +:+ handler_text ex +:+ "”).".

Definition msg_unexpected_exception (ex : Handler) : string :=
  "An unexpected exception has been " +:+ "thrown (expected: “"
  +:+ handler_text ex +:+ "”).".

(** l.142-155: the argument [assert_exception] hands to [if_debug]. *)
Definition assert_exception_argument (site : Site) (code : Code Mem) (ex : Handler)
  : Code Mem :=
  IfElse true
    (TryCatch
       (Seq code
          (Call_contracts_assert_failed (site_file site) (site_line site)
             (msg_no_exception ex)))
       [ (CatchType ex, EmptyBlock);
         (CatchAll,
          Call_contracts_assert_failed (site_file site) (site_line site)
            (msg_unexpected_exception ex)) ])
    (Paren VoidZero).

(** l.140-156 *)
Definition assert_exception (site : Site) (code : Code Mem) (ex : Handler)
  : option (Code Mem) :=
  match env !! "assert_exception" with
  | Some Body_assert_exception => if_debug (assert_exception_argument site code ex)
  | _ => None
  end.

End Macros.

End Macros.

Import Macros.

(** ** Translation units and the configuration of an inclusion *)

(** [env] is the macro table just after an inclusion of the header, in
    a translation unit of language [lang] whose earlier directives are
    arbitrary, and [ndebug] / [exdebug] tell whether [NDEBUG] / [EXDEBUG]
    were defined where the [#include] stands. *)
Definition after_inclusion (lang : Lang) (ndebug exdebug : bool) (env : Env) : Prop :=
  ∃ (ds : list Directive) (env0 : Env),
    preprocess ds (initial_env lang) = Some env0 ∧
    defined "NDEBUG" env0 = ndebug ∧
    defined "EXDEBUG" env0 = exdebug ∧
    contracts_h env0 = Some env.

(** A translation unit that sets the flags and includes the header once. *)
Definition flag_directives (ndebug exdebug : bool) : list Directive :=
  (if ndebug then [DefineFlag NDEBUG] else []) ++
  (if exdebug then [DefineFlag EXDEBUG] else []).

Definition single_inclusion (ndebug exdebug : bool) : list Directive :=
  flag_directives ndebug exdebug ++ [IncludeContracts].

Definition fresh_inclusion (lang : Lang) (ndebug exdebug : bool) : option Env :=
  preprocess (single_inclusion ndebug exdebug) (initial_env lang).

(** The macro table after the directives [ds] of a unit, and after an
    inclusion of the header that follows them (the preprocessor accepts
    every unit, see [preprocess_total], so the default is never used). *)
Definition env_before (lang : Lang) (ds : list Directive) : Env :=
  default ∅ (preprocess ds (initial_env lang)).

Definition env_after (lang : Lang) (ds : list Directive) : Env :=
  default ∅ (preprocess (ds ++ [IncludeContracts]) (initial_env lang)).

(** The names the guarded part of the header defines. *)
Definition guarded_names : list string :=
  ["H_CONTRACTS"; "if_debug"; "if_not_debug"; "requires"; "ensures";
   "validate"; "assert_exception"].

(** The names the header tests or defines itself. *)
Definition model_names : list string :=
  ["__cplusplus"; "NDEBUG"; "EXDEBUG"; "H_CONTRACTS"; "if_debug";
   "if_not_debug"; "requires"; "ensures"; "validate"; "assert_exception";
   "if_else_debug"; "CONTRACTS_ASSERT"].

(** The names lines 55-197 define or remove. *)
Definition own_macros : list string :=
  guarded_names ++ ["if_else_debug"; "CONTRACTS_ASSERT"].

(** All the macros an inclusion defines, [assert] of <assert.h> included. *)
Definition header_macros : list string :=
  guarded_names ++ ["if_else_debug"; "CONTRACTS_ASSERT"; "assert"].

(** The macros of the guarded part are in place. *)
Record installed (lang : Lang) (env : Env) : Prop := {
  inst_guard : env !! "H_CONTRACTS" = Some Body_flag;
  inst_if_debug : env !! "if_debug" = Some Body_if_debug;
  inst_if_not_debug : env !! "if_not_debug" = Some Body_if_not_debug;
  inst_requires : env !! "requires" = Some Body_requires;
  inst_ensures : env !! "ensures" = Some Body_ensures;
  inst_validate :
    env !! "validate" = if is_cpp lang then Some Body_validate else None;
  inst_assert_exception :
    env !! "assert_exception"
    = if is_cpp lang then Some Body_assert_exception else None }.

(** The macro tables a translation unit can reach: the flags have no
    replacement list, and the header was never included and none of its
    names is taken, or it was and its macros are there. *)
Definition wf (lang : Lang) (env : Env) : Prop :=
  env !! "__cplusplus" = (if is_cpp lang then Some Body_flag else None) ∧
  (∀ f, env !! flag_name f = None ∨ env !! flag_name f = Some Body_flag) ∧
  (((∀ n, n ∈ guarded_names → env !! n = None) ∧
    env !! "if_else_debug" = None ∧ env !! "CONTRACTS_ASSERT" = None)
   ∨ (installed lang env ∧ is_Some (env !! "if_else_debug"))).

(** The replacement lists lines 178-197 select. *)
Definition selected_if_else_debug (ndebug : bool) : MacroBody :=
  if ndebug then Body_if_else_debug_code_else else Body_if_else_debug_code_if.

Definition selected_CONTRACTS_ASSERT (lang : Lang) (ndebug exdebug : bool) : MacroBody :=
  if ndebug then Body_CONTRACTS_ASSERT_void
  else if exdebug && is_cpp lang then Body_CONTRACTS_ASSERT_throw
       else Body_CONTRACTS_ASSERT_assert.

Definition selected_assert (ndebug : bool) : MacroBody :=
  if ndebug then Body_assert_ignore else Body_assert_checking.

(** The macro table an inclusion leaves, as far as the header goes. *)
Record configured (lang : Lang) (ndebug exdebug : bool) (env : Env) : Prop := {
  cfg_installed : installed lang env;
  cfg_if_else_debug : env !! "if_else_debug" = Some (selected_if_else_debug ndebug);
  cfg_CONTRACTS_ASSERT :
    env !! "CONTRACTS_ASSERT" = Some (selected_CONTRACTS_ASSERT lang ndebug exdebug);
  cfg_assert : env !! "assert" = Some (selected_assert ndebug) }.

(** The header's macros are all there, each with one of the replacement
    lists the header gives it; [assert] may have been configured by an
    inclusion of <assert.h> of the user's own. *)
Definition usable (lang : Lang) (env : Env) : Prop :=
  ∃ ndebug exdebug ndebug_assert : bool,
    installed lang env ∧
    env !! "if_else_debug" = Some (selected_if_else_debug ndebug) ∧
    env !! "CONTRACTS_ASSERT"
    = Some (selected_CONTRACTS_ASSERT lang ndebug exdebug) ∧
    env !! "assert" = Some (selected_assert ndebug_assert).

#[global] Instance Flag_eq_dec : EqDecision Flag.
Proof. solve_decision. Defined.

#[global] Instance Directive_eq_dec : EqDecision Directive.
Proof. solve_decision. Defined.

(** ** Failure handling *)

Section Failure.

Context {Mem : Type}.
Variable widths : Widths.
Variable libc : Libc.

(** What a failed check does once its condition has come out false: in
    C++ with [EXDEBUG] the [throw] of l.193, otherwise what the failing
    [assert] of l.195 does. *)
Definition failure_handling (lang : Lang) (exdebug : bool) (site : Site)
    (C : Cond Mem) : Comp Mem () :=
  if exdebug && is_cpp lang
  then throw (ContractViolated_new (cond_text C))
  else (fprintf_stderr (assert_message libc (cond_text C) site) ;;; abort)%comp.

(** A check of [C] with debugging active. *)
Definition checked (lang : Lang) (exdebug : bool) (site : Site)
    (C : Cond Mem) : Comp Mem () :=
  (let! b := cond_eval C in
   if b : bool then ret () else failure_handling lang exdebug site C)%comp.

(** The world after [s] has been written to the standard error stream. *)
Definition with_stderr (w : World Mem) (s : string) : World Mem :=
  {| stderr := stderr w +:+ s; mem := mem w |}.

(** Failure handling has taken place: the check did not let control go on. *)
Definition failed (r : Outcome () * World Mem) : bool :=
  match r.1 with
  | Thrown _ | Aborted => true
  | Normal _ | Diverged => false
  end.

End Failure.

(** ** The expansion as a function of the flags *)

(** What [CONTRACTS_ASSERT(C)] stands for after an inclusion that saw
    the flags [ndebug] and [exdebug] in language [lang]. *)
Definition CONTRACTS_ASSERT_expansion {Mem : Type} (lang : Lang)
    (ndebug exdebug : bool) (site : Site) (C : Cond Mem) : Code Mem :=
  if ndebug then VoidZero
  else if exdebug && is_cpp lang
       then Paren (Conditional C VoidZero (ThrowContractViolated (cond_text C)))
       else LibcAssert site C.

(** ** Arguments as they are written *)

(** [requires(exp)] hands [exp] on to [CONTRACTS_ASSERT] without [#]
    (l.83, l.92, l.127), so the macros named in the argument are
    replaced before [#expr] (l.193) or the [#] of [assert] (l.195) sees
    it (C99 6.10.3.1).  [expand] is that replacement for arguments that
    name object-like macros of the unit whose replacement lists are not
    empty and name no macro; it is [None] for the other arguments (a
    macro of the header or of the library, a flag, nested macros), which
    it does not describe.  The first token of a replacement takes the
    place, and the leading white space, of the macro name. *)
Definition expand_token (env : Env) (t : Token) : option (list Token) :=
  match env !! spelling t with
  | None => Some [t]
  | Some (Body_object (r :: rs)) =>
      if forallb (λ t', bool_decide (env !! spelling t' = None)) (r :: rs)
      then Some ({| leading_space := leading_space t; spelling := spelling r |}
                 :: rs)
      else None
  | Some _ => None
  end.

Definition expand (env : Env) (ts : list Token) : option (list Token) :=
  tss ← mapM (expand_token env) ts; Some (concat tss).

(** A condition as it stands at the place of use: its tokens and what
    its evaluation does. *)
Record Written (Mem : Type) : Type :=
  mkWritten { written_tokens : list Token; written_eval : Comp Mem bool }.
Arguments mkWritten {Mem} _ _.
Arguments written_tokens {Mem} _.
Arguments written_eval {Mem} _.

(** The literal text of a condition. *)
Definition literal_text {Mem : Type} (W : Written Mem) : string :=
  stringify (written_tokens W).

(** The condition [CONTRACTS_ASSERT] receives for a written one. *)
Definition argument {Mem : Type} (env : Env) (W : Written Mem)
  : option (Cond Mem) :=
  ts ← expand env (written_tokens W);
  Some {| cond_text := stringify ts; cond_eval := written_eval W |}.

(** The header's macros are in force as an inclusion under the flags
    [ndebug] and [exdebug] left them; the unit may have defined macros
    of its own since. *)
Definition in_force (lang : Lang) (ndebug exdebug : bool) (env : Env) : Prop :=
  ∃ env0 : Env,
    after_inclusion lang ndebug exdebug env0 ∧
    ∀ n, n ∈ header_macros → env !! n = env0 !! n.

(** ** The wording of the specification, for comparison *)

Module Spec.

(** The diagnostic the specification gives for a failed contract check
    in default mode: [*** assertion failed at <file>:<line>\n<message>\n]
    with the text of the condition as message. *)
Definition default_mode_diagnostic (site : Site) (text : string) : string :=
  "*** assertion failed at " +:+ site_file site +:+ ":"
  +:+ decimal (site_line site) +:+ newline +:+ text +:+ newline.

(** The messages the specification gives for [assert_exception]. *)
Definition msg_no_exception (K : string) : string :=
  "No exception has been thrown (expected: " +:+ K +:+ ").".

Definition msg_unexpected_exception (K : string) : string :=
  "An unexpected exception has been thrown (expected: " +:+ K +:+ ").".

End Spec.

(** ** Sample inputs *)

Module Examples.

(** The user state of the samples counts how often user code ran. *)
Definition w0 : World nat := {| stderr := ""; mem := 0 |}.

Definition site0 : Site :=
  {| site_file := "account.cpp"; site_line := 42; site_func := "withdraw" |}.

Definition tick {A : Type} (o : Outcome A) : Comp nat A :=
  λ w, (o, {| stderr := stderr w; mem := S (mem w) |}).

(** [solde > 0], coming out as [b]. *)
Definition solde_positive (b : bool) : Cond nat :=
  {| cond_text := "solde > 0"; cond_eval := tick (Normal b) |}.

(** A condition whose evaluation kills the process. *)
Definition crashing_cond : Cond nat :=
  {| cond_text := "*p == 0"; cond_eval := tick Aborted |}.

(** An object whose [isValid()] kills the process, and one whose
    [isValid()] answers [b]. *)
Definition crashing_obj : Obj nat :=
  {| obj_text := "*this"; obj_isValid := tick Aborted |}.

Definition this_obj (b : bool) : Obj nat :=
  {| obj_text := "*this"; obj_isValid := tick (Normal b) |}.

(** [v.at(2) = 3] on an empty vector, and a statement that returns. *)
Definition v_at_2 : Code nat :=
  UserCode {| stmt_run := tick (Thrown {| exn_type := std_out_of_range;
                                          exn_what := "vector::_M_range_check" |}) |}.

Definition harmless : Code nat := UserCode {| stmt_run := tick (Normal ()) |}.

Definition out_of_range : Handler :=
  {| handler_text := "std::out_of_range"; handler_type := std_out_of_range |}.

Definition runtime_error : Handler :=
  {| handler_text := "std::runtime_error"; handler_type := std_runtime_error |}.

Definition logic_error : Handler :=
  {| handler_text := "std::logic_error"; handler_type := std_logic_error |}.

(** The macro table of a unit that sets the flags and includes the
    header once. *)
Definition env_of (lang : Lang) (ndebug exdebug : bool) : Env :=
  env_after lang (flag_directives ndebug exdebug).

(** The table after [#define LIMIT 100] in such a unit, and the
    condition [n < LIMIT], coming out as [b]. *)
Definition limit_100 : MacroBody :=
  Body_object [{| leading_space := false; spelling := "100" |}].

Definition env_limit (lang : Lang) (ndebug exdebug : bool) : Env :=
  <["LIMIT" := limit_100]> (env_of lang ndebug exdebug).

Definition n_below_limit (b : bool) : Written nat :=
  {| written_tokens := [ {| leading_space := false; spelling := "n" |};
                         {| leading_space := true; spelling := "<" |};
                         {| leading_space := true; spelling := "LIMIT" |} ];
     written_eval := tick (Normal b) |}.

(** A unit that includes the header three times under different flags. *)
Definition two_inclusions_before : list Directive :=
  [ IncludeContracts;
    DefineFlag NDEBUG; IncludeContracts;
    UndefFlag NDEBUG; DefineFlag EXDEBUG ].

End Examples.

(** * Properties of the preprocessor layer *)

Section PreprocessorFacts.

Implicit Types (env : Env) (name n : string) (body : MacroBody).

Lemma define_fresh name body env :
  env !! name = None → define name body env = Some (<[name := body]> env).
Proof. intros H. unfold define. by rewrite H. Qed.

Lemma define_again name body env :
  env !! name = Some body → define name body env = Some env.
Proof. intros H. unfold define. rewrite H. by rewrite decide_True. Qed.

Lemma defined_Some name env body : env !! name = Some body → defined name env = true.
Proof. intros H. unfold defined. by rewrite H. Qed.

Lemma defined_None name env : env !! name = None → defined name env = false.
Proof.
  intros H. unfold defined. rewrite H.
  apply bool_decide_eq_false. by intros [? ?].
Qed.

Lemma assert_h_assert env :
  assert_h env !! "assert" = Some (selected_assert (defined "NDEBUG" env)).
Proof.
  unfold assert_h, undef, defined, selected_assert.
  rewrite lookup_delete_ne by done.
  case_bool_decide; by rewrite lookup_insert_eq.
Qed.

Lemma assert_h_other env n : n ≠ "assert" → assert_h env !! n = env !! n.
Proof.
  intros Hn. unfold assert_h, undef.
  destruct (defined _ _); rewrite lookup_insert_ne, lookup_delete_ne; done.
Qed.

Lemma library_header_other names env n :
  n ∉ names → library_header names env !! n = env !! n.
Proof.
  induction names as [| m names IH]; intros Hn; cbn; [done |].
  apply not_elem_of_cons in Hn as [? ?]. rewrite lookup_insert_ne by done.
  by apply IH.
Qed.

Lemma library_header_defined names env n :
  n ∈ names → library_header names env !! n = Some Body_implementation.
Proof.
  induction names as [| m names IH]; intros Hn; cbn.
  - by apply elem_of_nil in Hn.
  - destruct (decide (m = n)) as [-> | Hne]; [by rewrite lookup_insert_eq |].
    rewrite lookup_insert_ne by done. apply IH.
    apply elem_of_cons in Hn as [-> | ?]; done.
Qed.

(** The library part of the standard headers, after <assert.h>. *)
Lemma standard_headers_library env :
  standard_headers env
  = library_header (stdio_macros ++ stdlib_macros ++ stddef_macros) (assert_h env).
Proof.
  unfold standard_headers, string_h, stdexcept_h, stdio_h, stdlib_h, stddef_h,
    library_header.
  rewrite !foldr_app. by destruct (defined _ _).
Qed.

Lemma standard_headers_other env n :
  n ≠ "assert" → n ∉ standard_macros → standard_headers env !! n = env !! n.
Proof.
  intros Hn Hs. rewrite standard_headers_library, library_header_other.
  - by apply assert_h_other.
  - unfold standard_macros in Hs. rewrite !elem_of_app in Hs |- *. tauto.
Qed.

Lemma standard_headers_assert env :
  standard_headers env !! "assert"
  = Some (selected_assert (defined "NDEBUG" env)).
Proof.
  rewrite standard_headers_library, library_header_other.
  - apply assert_h_assert.
  - intros Hin. unfold stdio_macros, stdlib_macros, stddef_macros in Hin.
    cbn [app] in Hin.
    repeat (apply elem_of_cons in Hin as [Hin | Hin]; [discriminate Hin |]).
    by apply elem_of_nil in Hin.
Qed.

Lemma standard_headers_standard env n :
  n ∈ standard_macros → standard_headers env !! n = Some Body_implementation.
Proof.
  intros Hs. rewrite standard_headers_library. apply library_header_defined.
  unfold standard_macros in Hs. rewrite !elem_of_app in Hs |- *. tauto.
Qed.

(** The names the header and its flags use are not among them. *)
Lemma model_names_not_standard n : n ∈ model_names → n ∉ standard_macros.
Proof.
  unfold model_names, standard_macros, stddef_macros, stdlib_macros,
    stdio_macros.
  intros Hn Hin. cbn [app] in Hin.
  repeat (apply elem_of_cons in Hn as [-> | Hn];
          [ repeat (apply elem_of_cons in Hin as [Hin | Hin];
                    [discriminate Hin |]);
            by apply elem_of_nil in Hin |]).
  by apply elem_of_nil in Hn.
Qed.

Lemma standard_headers_model env n :
  n ∈ model_names → standard_headers env !! n = env !! n.
Proof.
  intros Hn. apply standard_headers_other.
  - intros ->. unfold model_names in Hn.
    repeat (apply elem_of_cons in Hn as [Hn | Hn]; [discriminate Hn |]).
    by apply elem_of_nil in Hn.
  - by apply model_names_not_standard.
Qed.

Ltac lookups :=
  repeat first
    [ rewrite lookup_insert_eq
    | rewrite lookup_delete_eq
    | rewrite lookup_insert_ne by done
    | rewrite lookup_delete_ne by done ].

(* [n ∈ [a; b; ...]] for a name in the list *)
Ltac in_list := repeat constructor.

(* case analysis on [n ∈ [a; b; ...]], and [n ≠ a] from [n ∉ [a; b; ...]] *)
Ltac elem_cases :=
  repeat match goal with
    | H : _ ∈ _ :: _ |- _ => apply elem_of_cons in H as [? | H]; [simplify_eq |]
    | H : _ ∈ [] |- _ => by apply elem_of_nil in H
    | H : _ ∉ _ :: _ |- _ => apply not_elem_of_cons in H as [? H]
    end.

Ltac define_step H :=
  rewrite define_fresh by (lookups; first [ done | apply H; in_list ]);
  cbn [mbind option_bind].

(** The guarded part succeeds on every reachable table, installs its
    macros and leaves every other name alone. *)
Lemma guarded_part_spec lang env :
  wf lang env →
  ∃ env', guarded_part env = Some env' ∧ installed lang env' ∧
          ∀ n, n ∉ guarded_names → env' !! n = env !! n.
Proof.
  intros (Hl & _ & [(Hf & _ & _) | [Hi _]]); unfold guarded_part.
  - rewrite (defined_None "H_CONTRACTS") by (apply Hf; in_list).
    do 5 define_step Hf.
    destruct lang; cbn in Hl.
    + rewrite defined_None by (by lookups).
      eexists; split; [done|]. split.
      * split; lookups; try done; cbn; apply Hf; in_list.
      * intros n Hn. unfold guarded_names in Hn. elem_cases. by lookups.
    + rewrite (defined_Some _ _ Body_flag) by (by lookups).
      do 2 define_step Hf.
      eexists; split; [done|]. split.
      * split; lookups; done.
      * intros n Hn. unfold guarded_names in Hn. elem_cases. by lookups.
  - rewrite (defined_Some _ _ _ (inst_guard _ _ Hi)). eauto.
Qed.

(** The configurable part succeeds as soon as [CONTRACTS_ASSERT] is not
    defined without [if_else_debug], and its two macros then depend on
    the flags alone. *)
Lemma configurable_part_spec env :
  (env !! "if_else_debug" = None → env !! "CONTRACTS_ASSERT" = None) →
  ∃ env',
    configurable_part env = Some env' ∧
    env' !! "if_else_debug"
    = Some (if defined "NDEBUG" env then Body_if_else_debug_code_else
            else Body_if_else_debug_code_if) ∧
    env' !! "CONTRACTS_ASSERT"
    = Some (if defined "NDEBUG" env then Body_CONTRACTS_ASSERT_void
            else if defined "EXDEBUG" env && defined "__cplusplus" env
                 then Body_CONTRACTS_ASSERT_throw
                 else Body_CONTRACTS_ASSERT_assert) ∧
    ∀ n, n ≠ "if_else_debug" → n ≠ "CONTRACTS_ASSERT" → env' !! n = env !! n.
Proof.
  intros Hca. unfold configurable_part, undef.
  set (env1 := if defined "if_else_debug" env then _ else env).
  assert (Hsame : ∀ n, n ≠ "if_else_debug" → n ≠ "CONTRACTS_ASSERT" →
                       env1 !! n = env !! n).
  { intros n H1 H2. subst env1. destruct (defined _ _); [by lookups | done]. }
  assert (H1 : env1 !! "if_else_debug" = None).
  { subst env1. unfold defined. case_bool_decide as Hd; [by lookups |].
    by apply eq_None_not_Some. }
  assert (H2 : env1 !! "CONTRACTS_ASSERT" = None).
  { subst env1. unfold defined. case_bool_decide as Hd; [by lookups |].
    apply Hca. by apply eq_None_not_Some. }
  assert (Hd : ∀ n, n ≠ "if_else_debug" → n ≠ "CONTRACTS_ASSERT" →
                    defined n env1 = defined n env).
  { intros n ? ?. unfold defined. by rewrite Hsame. }
  rewrite !Hd by done. clearbody env1.
  destruct (defined "NDEBUG" env).
  - rewrite define_fresh by done. cbn [mbind option_bind].
    rewrite define_fresh by (by lookups).
    eexists; split; [done|]. repeat split; lookups; try done.
    intros n ? ?. lookups. by apply Hsame.
  - rewrite define_fresh by done. cbn [mbind option_bind].
    assert (Hd' : ∀ n, n ≠ "if_else_debug" →
               defined n (<["if_else_debug":=Body_if_else_debug_code_if]> env1)
               = defined n env1).
    { intros n ?. unfold defined. by lookups. }
    rewrite !Hd', !Hd by done.
    destruct (_ && _); rewrite define_fresh by (by lookups);
      (eexists; split; [done|]); repeat split; lookups; try done;
      intros n ? ?; lookups; by apply Hsame.
Qed.

Lemma defined_cplusplus lang env :
  env !! "__cplusplus" = (if is_cpp lang then Some Body_flag else None) →
  defined "__cplusplus" env = is_cpp lang.
Proof.
  intros H. destruct lang; cbn in H.
  - by apply defined_None.
  - by eapply defined_Some.
Qed.

Lemma flag_name_not_header f : flag_name f ∉ header_macros.
Proof. destruct f; cbn; intros H; by elem_cases. Qed.

Lemma wf_same_model_names lang env env' :
  wf lang env →
  (∀ n, n ∈ model_names → env' !! n = env !! n) →
  wf lang env'.
Proof.
  intros (Hl & Hfl & Hs) Hsame. unfold model_names in Hsame. split_and!.
  - by rewrite Hsame by in_list.
  - intros f. rewrite Hsame; [done | destruct f; in_list].
  - destruct Hs as [(Hf & H1 & H2) | [[] Hs]]; [left | right].
    + split_and!; [| by rewrite Hsame by in_list..].
      intros n Hn. rewrite Hsame; [by apply Hf |].
      unfold guarded_names in Hn. elem_cases; in_list.
    + split; [split |]; by rewrite Hsame by in_list.
Qed.

Lemma flag_name_not_standard f : flag_name f ∉ standard_macros.
Proof.
  apply model_names_not_standard. unfold model_names. destruct f; in_list.
Qed.

(** One inclusion: it succeeds, the table stays reachable, the header's
    macros are those the flags select, and no name changes but these and
    the macros of the standard headers. *)
Lemma contracts_h_spec lang env0 :
  wf lang env0 →
  ∃ env,
    contracts_h env0 = Some env ∧ wf lang env ∧
    configured lang (defined "NDEBUG" env0) (defined "EXDEBUG" env0) env ∧
    ∀ n, n ∉ header_macros → n ∉ standard_macros → env !! n = env0 !! n.
Proof.
  intros Hwf. unfold contracts_h.
  assert (Hwf1 : wf lang (standard_headers env0)).
  { eapply wf_same_model_names; [exact Hwf |].
    intros n Hn. by apply standard_headers_model. }
  destruct (guarded_part_spec _ _ Hwf1) as (env1 & -> & Hi & Hfr1).
  cbn [mbind option_bind].
  assert (Hg : ∀ n, n ∈ ["if_else_debug"; "CONTRACTS_ASSERT"; "assert";
                         "NDEBUG"; "EXDEBUG"; "__cplusplus"] →
                    n ∉ guarded_names).
  { intros n Hn Hg. unfold guarded_names in Hg. by elem_cases. }
  assert (Hm : ∀ n, n ∈ ["if_else_debug"; "CONTRACTS_ASSERT"; "NDEBUG";
                         "EXDEBUG"; "__cplusplus"] →
                    env1 !! n = env0 !! n).
  { intros n Hn. rewrite Hfr1 by (apply Hg; elem_cases; in_list).
    apply standard_headers_model. unfold model_names. elem_cases; in_list. }
  assert (Hca : env1 !! "if_else_debug" = None → env1 !! "CONTRACTS_ASSERT" = None).
  { rewrite !Hm by in_list.
    destruct Hwf as (_ & _ & [(_ & _ & H2) | [_ [b Hb]]]); [done | by rewrite Hb]. }
  destruct (configurable_part_spec _ Hca) as (env & -> & Hied & Hcas & Hfr).
  assert (Hsame : ∀ n, n ∉ header_macros → n ∉ standard_macros →
                       env !! n = env0 !! n).
  { intros n Hn Hs. unfold header_macros, guarded_names in Hn. cbn in Hn.
    assert (Hgn : n ∉ guarded_names).
    { unfold guarded_names. intros Hg'. apply Hn.
      repeat (apply elem_of_cons in Hg' as [-> | Hg']; [in_list |]).
      by apply elem_of_nil in Hg'. }
    elem_cases. rewrite Hfr by done. rewrite Hfr1 by done.
    by apply standard_headers_other. }
  assert (Hflag : ∀ n, n ∈ ["NDEBUG"; "EXDEBUG"; "__cplusplus"] →
                       defined n env1 = defined n env0).
  { intros n Hn. unfold defined. rewrite Hm; [done |]. elem_cases; in_list. }
  rewrite (Hflag "NDEBUG") in Hied, Hcas by in_list.
  rewrite (Hflag "EXDEBUG"), (Hflag "__cplusplus") in Hcas by in_list.
  rewrite (defined_cplusplus lang env0) in Hcas by apply Hwf.
  eexists; split; [done|]. split_and!; [| | done].
  - split_and!.
    + rewrite Hfr by done. rewrite Hm by in_list. apply Hwf.
    + intros f.
      rewrite Hsame by first [apply flag_name_not_header
                             | apply flag_name_not_standard].
      apply Hwf.
    + right. split; [|by rewrite Hied].
      destruct Hi. split; by rewrite Hfr.
  - split; [| done | done |].
    + destruct Hi. split; by rewrite Hfr.
    + rewrite Hfr by done. rewrite Hfr1 by (apply Hg; in_list).
      apply standard_headers_assert.
Qed.

Lemma initial_env_wf lang : wf lang (initial_env lang).
Proof.
  split_and!.
  - by destruct lang.
  - intros f. left. by destruct lang, f.
  - left. split_and!; [intros n Hn; unfold guarded_names in Hn | ..];
      destruct lang; cbn; rewrite ?lookup_empty; try done;
      apply lookup_singleton_ne; try done.
    intros <-. by elem_cases.
Qed.

Lemma wf_other_names lang env env' :
  wf lang env →
  (∀ f, env' !! flag_name f = None ∨ env' !! flag_name f = Some Body_flag) →
  (∀ n, n ≠ "NDEBUG" → n ≠ "EXDEBUG" → n ≠ "assert" → env' !! n = env !! n) →
  wf lang env'.
Proof.
  intros (Hl & _ & Hs) Hfl Hsame. split_and!; [by rewrite Hsame | done |].
  destruct Hs as [(Hf & H1 & H2) | [[] Hs]]; [left | right].
  - split_and!; [| by rewrite Hsame..].
    intros n Hn. unfold guarded_names in Hn.
    rewrite Hsame; [by apply Hf | intros ->..]; by elem_cases.
  - split; [split|]; by rewrite Hsame.
Qed.

(** No directive of a translation unit fails or leaves the reachable
    tables. *)
Lemma directive_wf lang d env :
  wf lang env → ∃ env', directive d env = Some env' ∧ wf lang env'.
Proof.
  intros Hwf. destruct d as [f | f | |]; cbn [directive].
  - unfold define. destruct Hwf as (Hl & Hfl & Hs).
    destruct (Hfl f) as [-> | ->].
    + eexists; split; [done|]. eapply wf_other_names; [by split_and! | |].
      * intros g. destruct (decide (flag_name f = flag_name g)) as [<- | ?].
        -- right. by rewrite lookup_insert_eq.
        -- by rewrite lookup_insert_ne.
      * intros n ? ? ?. destruct f; by rewrite lookup_insert_ne.
    + rewrite decide_True by done. eexists; split; [done|]. by split_and!.
  - eexists; split; [done|]. eapply wf_other_names; [done | |].
    + intros g. unfold undef.
      destruct (decide (flag_name f = flag_name g)) as [<- | ?].
      * left. by rewrite lookup_delete_eq.
      * rewrite lookup_delete_ne by done. apply Hwf.
    + intros n ? ? ?. unfold undef. destruct f; by rewrite lookup_delete_ne.
  - eexists; split; [done|]. eapply wf_other_names; [done | |].
    + intros g. rewrite assert_h_other; [apply Hwf | by destruct g].
    + intros n ? ? ?. by rewrite assert_h_other.
  - destruct (contracts_h_spec _ _ Hwf) as (env' & ? & ? & _). eauto.
Qed.

(** Every translation unit is accepted by the preprocessor. *)
Lemma preprocess_wf lang ds env :
  wf lang env → ∃ env', preprocess ds env = Some env' ∧ wf lang env'.
Proof.
  revert env. induction ds as [| d ds IH]; intros env Hwf; cbn [preprocess].
  - eauto.
  - destruct (directive_wf lang d env Hwf) as (env1 & -> & Hwf1).
    cbn [mbind option_bind]. by apply IH.
Qed.

Lemma preprocess_total lang ds :
  ∃ env, preprocess ds (initial_env lang) = Some env ∧ wf lang env.
Proof. apply preprocess_wf, initial_env_wf. Qed.

(** After an inclusion the header's macros are those selected by the
    flags at the [#include], whatever came before in the unit. *)
Lemma after_inclusion_configured lang ndebug exdebug env :
  after_inclusion lang ndebug exdebug env → configured lang ndebug exdebug env.
Proof.
  intros (ds & env0 & Hpre & <- & <- & Hinc).
  destruct (preprocess_total lang ds) as (env0' & Hpre' & Hwf).
  rewrite Hpre in Hpre'. injection Hpre' as <-.
  destruct (contracts_h_spec _ _ Hwf) as (env' & Hinc' & _ & Hcfg & _).
  rewrite Hinc in Hinc'. by injection Hinc' as <-.
Qed.

Lemma preprocess_app ds1 ds2 env :
  preprocess (ds1 ++ ds2) env = preprocess ds1 env ≫= preprocess ds2.
Proof.
  revert env. induction ds1 as [| d ds1 IH]; intros env; cbn; [done |].
  destruct (directive d env); cbn; [apply IH | done].
Qed.

(** [env_before] and [env_after] are the tables the preprocessor
    produces, and the second is the state after an inclusion. *)
Lemma after_inclusion_env_after lang ds :
  preprocess ds (initial_env lang) = Some (env_before lang ds) ∧
  contracts_h (env_before lang ds) = Some (env_after lang ds) ∧
  after_inclusion lang (defined "NDEBUG" (env_before lang ds))
    (defined "EXDEBUG" (env_before lang ds)) (env_after lang ds).
Proof.
  destruct (preprocess_total lang ds) as (env0 & Hpre & Hwf).
  destruct (contracts_h_spec _ _ Hwf) as (env & Hinc & _).
  assert (H0 : env_before lang ds = env0) by (unfold env_before; by rewrite Hpre).
  assert (H1 : env_after lang ds = env).
  { unfold env_after. rewrite preprocess_app, Hpre. cbn. by rewrite Hinc. }
  rewrite H0, H1. split_and!; [done.. |]. by exists ds, env0.
Qed.

Lemma flag_directives_defined lang ndebug exdebug :
  defined "NDEBUG" (env_before lang (flag_directives ndebug exdebug)) = ndebug ∧
  defined "EXDEBUG" (env_before lang (flag_directives ndebug exdebug)) = exdebug.
Proof. destruct lang, ndebug, exdebug; vm_compute; done. Qed.

End PreprocessorFacts.

(** * Properties of the macros *)

Section MacroFacts.

Context {Mem : Type}.
Variable widths : Widths.
Variable libc : Libc.

Implicit Types (env : Env) (lang : Lang) (site : Site).
Implicit Types (C : Cond Mem) (obj : Obj Mem) (w : World Mem) (code : Code Mem).

(** ** Expansion against a configured table *)

Lemma if_else_debug_configured lang ndebug exdebug env {A} (a b : A) :
  configured lang ndebug exdebug env →
  if_else_debug env a b = Some (if ndebug then b else a).
Proof.
  intros Hc. unfold if_else_debug. rewrite (cfg_if_else_debug _ _ _ _ Hc).
  by destruct ndebug.
Qed.

Lemma if_debug_configured lang ndebug exdebug env code :
  configured lang ndebug exdebug env →
  if_debug env code = Some (if ndebug then VoidZero else code).
Proof.
  intros Hc. unfold if_debug.
  rewrite (inst_if_debug _ _ (cfg_installed _ _ _ _ Hc)).
  by eapply if_else_debug_configured.
Qed.

Lemma if_not_debug_configured lang ndebug exdebug env code :
  configured lang ndebug exdebug env →
  if_not_debug env code = Some (if ndebug then code else VoidZero).
Proof.
  intros Hc. unfold if_not_debug.
  rewrite (inst_if_not_debug _ _ (cfg_installed _ _ _ _ Hc)).
  by eapply if_else_debug_configured.
Qed.

Lemma CONTRACTS_ASSERT_configured lang ndebug exdebug env site C :
  configured lang ndebug exdebug env →
  CONTRACTS_ASSERT env site C
  = Some (CONTRACTS_ASSERT_expansion lang ndebug exdebug site C).
Proof.
  intros Hc. unfold CONTRACTS_ASSERT, assert, CONTRACTS_ASSERT_expansion.
  rewrite (cfg_CONTRACTS_ASSERT _ _ _ _ Hc), (cfg_assert _ _ _ _ Hc).
  destruct ndebug; [done|]. cbn. by destruct (exdebug && is_cpp lang).
Qed.

Lemma requires_configured lang ndebug exdebug env site C :
  configured lang ndebug exdebug env →
  requires env site C
  = Some (Paren (CONTRACTS_ASSERT_expansion lang ndebug exdebug site C)).
Proof.
  intros Hc. unfold requires.
  rewrite (inst_requires _ _ (cfg_installed _ _ _ _ Hc)).
  by erewrite CONTRACTS_ASSERT_configured.
Qed.

Lemma ensures_configured lang ndebug exdebug env site C :
  configured lang ndebug exdebug env →
  ensures env site C
  = Some (Paren (CONTRACTS_ASSERT_expansion lang ndebug exdebug site C)).
Proof.
  intros Hc. unfold ensures.
  rewrite (inst_ensures _ _ (cfg_installed _ _ _ _ Hc)).
  by erewrite CONTRACTS_ASSERT_configured.
Qed.

Lemma validate_configured ndebug exdebug env site obj :
  configured LangCpp ndebug exdebug env →
  validate env site obj
  = Some (Paren (CONTRACTS_ASSERT_expansion LangCpp ndebug exdebug site
                   (isValid_call obj))).
Proof.
  intros Hc. unfold validate.
  rewrite (inst_validate _ _ (cfg_installed _ _ _ _ Hc)). cbn.
  by erewrite CONTRACTS_ASSERT_configured.
Qed.

Lemma assert_exception_configured ndebug exdebug env site code ex :
  configured LangCpp ndebug exdebug env →
  assert_exception env site code ex
  = Some (if ndebug then VoidZero else assert_exception_argument site code ex).
Proof.
  intros Hc. unfold assert_exception.
  rewrite (inst_assert_exception _ _ (cfg_installed _ _ _ _ Hc)). cbn.
  by eapply if_debug_configured.
Qed.

(** In C the two C++ macros do not exist. *)
Lemma cplusplus_only_configured ndebug exdebug env site obj code ex :
  configured LangC ndebug exdebug env →
  validate env site obj = None ∧ assert_exception env site code ex = None.
Proof.
  intros Hc. unfold validate, assert_exception.
  rewrite (inst_validate _ _ (cfg_installed _ _ _ _ Hc)).
  by rewrite (inst_assert_exception _ _ (cfg_installed _ _ _ _ Hc)).
Qed.

(** ** Execution of the expansions *)

Lemma exec_check_ndebug lang exdebug site C w :
  user_parts (Paren (CONTRACTS_ASSERT_expansion lang true exdebug site C)) = [] ∧
  exec widths libc (Paren (CONTRACTS_ASSERT_expansion lang true exdebug site C)) w
  = (Normal (), w).
Proof. done. Qed.

Lemma exec_check_debug lang exdebug site C w :
  exec widths libc (Paren (CONTRACTS_ASSERT_expansion lang false exdebug site C)) w
  = checked libc lang exdebug site C w.
Proof.
  unfold CONTRACTS_ASSERT_expansion, checked, failure_handling.
  cbn [exec]. unfold libc_assert.
  by destruct (exdebug && is_cpp lang).
Qed.

Lemma checked_true lang exdebug site C w w' :
  cond_eval C w = (Normal true, w') →
  checked libc lang exdebug site C w = (Normal (), w').
Proof. intros H. unfold checked, bind. by rewrite H. Qed.

Lemma checked_false lang exdebug site C w w' :
  cond_eval C w = (Normal false, w') →
  checked libc lang exdebug site C w = failure_handling libc lang exdebug site C w'.
Proof. intros H. unfold checked, bind. by rewrite H. Qed.

Lemma failure_handling_abort lang exdebug site C w :
  exdebug && is_cpp lang = false →
  failure_handling libc lang exdebug site C w
  = (Aborted, with_stderr w (assert_message libc (cond_text C) site)).
Proof. intros H. unfold failure_handling. by rewrite H. Qed.

Lemma failure_handling_throw site C w :
  failure_handling libc LangCpp true site C w
  = (Thrown (ContractViolated_new (cond_text C)), w).
Proof. done. Qed.

(** [try { body } catch ...]: the first clause that takes the exception
    runs in the world the [throw] left. *)
Lemma exec_try_caught body k h rest e w w' :
  exec widths libc body w = (Thrown e, w') →
  catches k e = true →
  exec widths libc (TryCatch body ((k, h) :: rest)) w = exec widths libc h w'.
Proof. intros Hb Hk. cbn [exec]. by rewrite Hb, Hk. Qed.

Lemma matches_ContractViolated what :
  matches ContractViolated (ContractViolated_new what) = true ∧
  matches std_logic_error (ContractViolated_new what) = true ∧
  matches std_exception (ContractViolated_new what) = true.
Proof. done. Qed.

Lemma exec_contracts_assert_failed file line msg w :
  exec widths libc (Call_contracts_assert_failed file line msg) w
  = __contracts_assert_failed widths file (to_size_t widths line) msg w ∧
  __contracts_assert_failed widths file (to_size_t widths line) msg w
  = (Aborted, with_stderr w (failure_report widths file (to_size_t widths line) msg)).
Proof. done. Qed.

(** The line number goes through [size_t] and [unsigned long]: where
    [unsigned long] has 32 bits a line beyond [2^32] is printed reduced. *)
Example failure_report_line :
  failure_report LP64 "a.c" (to_size_t LP64 4294967301) "m"
  = "*** assertion failed at a.c:4294967301" +:+ newline +:+ "m" +:+ newline ∧
  failure_report LLP64 "a.c" (to_size_t LLP64 4294967301) "m"
  = "*** assertion failed at a.c:5" +:+ newline +:+ "m" +:+ newline.
Proof. split; vm_compute; reflexivity. Qed.

(** The three ways [assert_exception] can go once its code has run. *)
Lemma exec_assert_exception_no_exception site code ex w w' :
  exec widths libc code w = (Normal (), w') →
  exec widths libc (assert_exception_argument site code ex) w
  = __contracts_assert_failed widths (site_file site)
      (to_size_t widths (site_line site)) (msg_no_exception ex) w'.
Proof.
  intros H. unfold assert_exception_argument. cbn [exec]. unfold bind.
  by rewrite H.
Qed.

Lemma exec_assert_exception_expected site code ex e w w' :
  exec widths libc code w = (Thrown e, w') →
  matches (handler_type ex) e = true →
  exec widths libc (assert_exception_argument site code ex) w = (Normal (), w').
Proof.
  intros H Hm. unfold assert_exception_argument. cbn [exec]. unfold bind.
  rewrite H. cbn [catches]. by rewrite Hm.
Qed.

Lemma exec_assert_exception_unexpected site code ex e w w' :
  exec widths libc code w = (Thrown e, w') →
  matches (handler_type ex) e = false →
  exec widths libc (assert_exception_argument site code ex) w
  = __contracts_assert_failed widths (site_file site)
      (to_size_t widths (site_line site)) (msg_unexpected_exception ex) w'.
Proof.
  intros H Hm. unfold assert_exception_argument. cbn [exec]. unfold bind.
  rewrite H. cbn [catches]. by rewrite Hm.
Qed.

End MacroFacts.

(** * The claims of the specification *)

(** ** Claims about the configuration (C7, C9) *)

Lemma fresh_inclusion_configured lang ndebug exdebug :
  ∃ fresh, fresh_inclusion lang ndebug exdebug = Some fresh ∧
           configured lang ndebug exdebug fresh.
Proof.
  destruct (after_inclusion_env_after lang (flag_directives ndebug exdebug))
    as (Hpre & Hinc & Hafter).
  destruct (flag_directives_defined lang ndebug exdebug) as [E1 E2].
  rewrite E1, E2 in Hafter.
  exists (env_after lang (flag_directives ndebug exdebug)). split.
  - unfold fresh_inclusion, single_inclusion.
    rewrite preprocess_app, Hpre. cbn. by rewrite Hinc.
  - by apply after_inclusion_configured.
Qed.

(* The hypothesis [after_inclusion], for a unit given by its directives,
   with the two flags evaluated. *)
Ltac inclusion_by_evaluation lang ds :=
  let H := fresh "H" in
  destruct (after_inclusion_env_after lang ds) as (_ & _ & H);
  let E1 := fresh "E" in
  let E2 := fresh "E" in
  match type of H with
  | after_inclusion _ ?n ?x _ =>
      assert (E1 : n = ltac:(let v := eval vm_compute in n in exact v))
        by (vm_compute; reflexivity);
      assert (E2 : x = ltac:(let v := eval vm_compute in x in exact v))
        by (vm_compute; reflexivity);
      rewrite E1, E2 in H
  end;
  exact H.

Lemma configured_agree lang ndebug exdebug (env1 env2 : Env) name :
  configured lang ndebug exdebug env1 →
  configured lang ndebug exdebug env2 →
  name ∈ header_macros →
  env1 !! name = env2 !! name.
Proof.
  intros [[] ? ? ?] [[] ? ? ?] Hn. unfold header_macros, guarded_names in Hn.
  cbn in Hn.
  repeat (apply elem_of_cons in Hn as [-> | Hn]; [congruence |]).
  by apply elem_of_nil in Hn.
Qed.

(** C7. After an inclusion of the header, [if_else_debug(A, B)] is
    replaced by exactly one of its two arguments, [B] when [NDEBUG] was
    defined at the inclusion and [A] when it was not; the language and
    [EXDEBUG] play no part, and the argument is taken as it is, whatever
    kind of code it is. *)
Theorem if_else_debug_selects_one {A : Type} lang ndebug exdebug (env : Env)
    (code_if code_else : A) :
  after_inclusion lang ndebug exdebug env →
  if_else_debug env code_if code_else
  = Some (if ndebug then code_else else code_if).
Proof.
  intros Hinc. eapply if_else_debug_configured.
  by apply after_inclusion_configured.
Qed.

Lemma if_else_debug_selects_one_witness :
  after_inclusion LangC true false (Examples.env_of LangC true false) ∧
  if_else_debug (Examples.env_of LangC true false) "activé" "désactivé"
  = Some "désactivé".
Proof.
  assert (H : after_inclusion LangC true false (Examples.env_of LangC true false))
    by inclusion_by_evaluation LangC (flag_directives true false).
  split; [exact H |].
  exact (if_else_debug_selects_one LangC true false _ "activé" "désactivé" H).
Defined.

(** Defining or removing a flag touches no macro of the header. *)
Lemma flag_change_keeps_macros (f : Flag) (env env' : Env) name :
  directive (DefineFlag f) env = Some env' ∨
  directive (UndefFlag f) env = Some env' →
  name ∈ header_macros →
  env' !! name = env !! name.
Proof.
  intros Hd Hn.
  assert (Hne : flag_name f ≠ name).
  { intros <-. by apply (flag_name_not_header f). }
  destruct Hd as [Hd | Hd]; cbn [directive] in Hd.
  - unfold define in Hd. destruct (env !! flag_name f) as [old |].
    + case_decide; by simplify_eq.
    + injection Hd as <-. by rewrite lookup_insert_ne.
  - injection Hd as <-. unfold undef. by rewrite lookup_delete_ne.
Qed.

(** C9. Whatever a translation unit did before (earlier inclusions of
    the header under other flags among it), a further inclusion of the
    header is accepted and leaves every macro of the header exactly as a
    unit that sets the same flags and includes the header once has it;
    [if_else_debug] and [CONTRACTS_ASSERT] then expand as the flags at
    that inclusion say, and go on doing so when a flag is changed
    afterwards without a new inclusion. *)
Theorem inclusions_are_independent lang (ds : list Directive) :
  ∃ env0 env fresh : Env,
    preprocess ds (initial_env lang) = Some env0 ∧
    contracts_h env0 = Some env ∧
    fresh_inclusion lang (defined "NDEBUG" env0) (defined "EXDEBUG" env0)
    = Some fresh ∧
    (∀ name, name ∈ header_macros → env !! name = fresh !! name) ∧
    (∀ (A : Type) (a b : A),
       if_else_debug env a b = Some (if defined "NDEBUG" env0 then b else a)) ∧
    (∀ (Mem : Type) site (C : Cond Mem),
       CONTRACTS_ASSERT env site C
       = Some (CONTRACTS_ASSERT_expansion lang (defined "NDEBUG" env0)
                 (defined "EXDEBUG" env0) site C)) ∧
    (∀ (f : Flag) (env' : Env) name,
       directive (DefineFlag f) env = Some env' ∨
       directive (UndefFlag f) env = Some env' →
       name ∈ header_macros → env' !! name = fresh !! name).
Proof.
  destruct (preprocess_total lang ds) as (env0 & Hpre & Hwf).
  destruct (contracts_h_spec _ _ Hwf) as (env & Hinc & _ & Hcfg & _).
  destruct (fresh_inclusion_configured lang (defined "NDEBUG" env0)
              (defined "EXDEBUG" env0)) as (fresh & Hfresh & Hcfg').
  exists env0, env, fresh. split_and!; try done.
  - intros name Hn. by eapply configured_agree.
  - intros A a b. by eapply if_else_debug_configured.
  - intros Mem site C. by eapply CONTRACTS_ASSERT_configured.
  - intros f env' name Hd Hn.
    rewrite (flag_change_keeps_macros f env env' name Hd Hn).
    by eapply configured_agree.
Qed.

(** Three inclusions in one C++ unit: debugging active; then [NDEBUG];
    then [NDEBUG] removed and [EXDEBUG] defined.  Each time the two
    configurable macros are those of the flags of that inclusion. *)
Example three_inclusions :
  env_after LangCpp [] !! "if_else_debug" = Some Body_if_else_debug_code_if ∧
  env_after LangCpp [] !! "CONTRACTS_ASSERT" = Some Body_CONTRACTS_ASSERT_assert ∧
  env_after LangCpp [IncludeContracts; DefineFlag NDEBUG] !! "if_else_debug"
  = Some Body_if_else_debug_code_else ∧
  env_after LangCpp [IncludeContracts; DefineFlag NDEBUG] !! "CONTRACTS_ASSERT"
  = Some Body_CONTRACTS_ASSERT_void ∧
  env_after LangCpp Examples.two_inclusions_before !! "if_else_debug"
  = Some Body_if_else_debug_code_if ∧
  env_after LangCpp Examples.two_inclusions_before !! "CONTRACTS_ASSERT"
  = Some Body_CONTRACTS_ASSERT_throw ∧
  env_after LangCpp Examples.two_inclusions_before !! "assert"
  = Some Body_assert_checking.
Proof. split_and!; vm_compute; reflexivity. Qed.

(** ** Claims about elided checks (C1, C6) *)

(** C1. With [NDEBUG] defined at the inclusion, [requires(C)],
    [ensures(C)] and, in C++, [validate(obj)] all stand for
    [((void) 0)]: no piece of user code occurs in the expansion, so [C]
    is not evaluated and [isValid()] is not called, and running it ends
    normally in the world it started in, for every [C] and every [obj],
    also those whose evaluation would not come back. *)
Theorem ndebug_contracts_have_no_effect {Mem : Type} (widths : Widths)
    (libc : Libc) lang exdebug (env : Env) site (C : Cond Mem) (obj : Obj Mem)
    (w : World Mem) :
  after_inclusion lang true exdebug env →
  requires env site C = Some (Paren VoidZero) ∧
  ensures env site C = Some (Paren VoidZero) ∧
  (lang = LangCpp → validate env site obj = Some (Paren VoidZero)) ∧
  user_parts (Paren (@VoidZero Mem)) = [] ∧
  exec widths libc (Paren VoidZero) w = (Normal (), w).
Proof.
  intros Hinc. apply after_inclusion_configured in Hinc.
  split_and!; [| | | done..].
  - by rewrite (requires_configured _ _ _ _ site C Hinc).
  - by rewrite (ensures_configured _ _ _ _ site C Hinc).
  - intros ->. by rewrite (validate_configured _ _ _ site obj Hinc).
Qed.

Lemma ndebug_contracts_have_no_effect_witness :
  after_inclusion LangCpp true true (Examples.env_of LangCpp true true) ∧
  requires (Examples.env_of LangCpp true true) Examples.site0 Examples.crashing_cond
  = Some (Paren VoidZero) ∧
  ensures (Examples.env_of LangCpp true true) Examples.site0 Examples.crashing_cond
  = Some (Paren VoidZero) ∧
  validate (Examples.env_of LangCpp true true) Examples.site0 Examples.crashing_obj
  = Some (Paren VoidZero) ∧
  exec LP64 (glibc "bank") (Paren VoidZero) Examples.w0 = (Normal (), Examples.w0).
Proof.
  assert (H : after_inclusion LangCpp true true (Examples.env_of LangCpp true true))
    by inclusion_by_evaluation LangCpp (flag_directives true true).
  destruct (ndebug_contracts_have_no_effect LP64 (glibc "bank") LangCpp true _
              Examples.site0 Examples.crashing_cond Examples.crashing_obj
              Examples.w0 H) as (Hr & He & Hv & _ & Hx).
  split_and!; [exact H | exact Hr | exact He | exact (Hv eq_refl) | exact Hx].
Defined.

(** C6. With [NDEBUG] defined at the inclusion, in C++,
    [assert_exception(code, ex)] stands for [(void) 0]: [code] does not
    occur in the expansion and is not executed, and running the
    expansion changes nothing, for every [code] and every [ex]. *)
Theorem ndebug_assert_exception_is_nothing {Mem : Type} (widths : Widths)
    (libc : Libc) exdebug (env : Env) site (code : Code Mem) (ex : Handler)
    (w : World Mem) :
  after_inclusion LangCpp true exdebug env →
  assert_exception env site code ex = Some VoidZero ∧
  user_parts (@VoidZero Mem) = [] ∧
  exec widths libc VoidZero w = (Normal (), w).
Proof.
  intros Hinc. apply after_inclusion_configured in Hinc.
  split_and!; [| done..].
  by rewrite (assert_exception_configured _ _ _ site code ex Hinc).
Qed.

Lemma ndebug_assert_exception_is_nothing_witness :
  after_inclusion LangCpp true false (Examples.env_of LangCpp true false) ∧
  assert_exception (Examples.env_of LangCpp true false) Examples.site0
    Examples.v_at_2 Examples.out_of_range = Some VoidZero ∧
  exec LP64 (glibc "bank") VoidZero Examples.w0 = (Normal (), Examples.w0).
Proof.
  assert (H : after_inclusion LangCpp true false (Examples.env_of LangCpp true false))
    by inclusion_by_evaluation LangCpp (flag_directives true false).
  destruct (ndebug_assert_exception_is_nothing LP64 (glibc "bank") false _
              Examples.site0 Examples.v_at_2 Examples.out_of_range
              Examples.w0 H) as (Ha & _ & Hx).
  split_and!; [exact H | exact Ha | exact Hx].
Defined.

(** ** Claims about checks that pass or fail (C8, C5, C2, C3) *)

(** C8. A condition that comes out true never triggers failure
    handling: under every combination of language, [NDEBUG] and
    [EXDEBUG], [requires(C)] and [ensures(C)] end normally, with no
    [abort] and no exception.  (A statically true [C] is the case where
    the evaluation changes nothing, [w' = w].) *)
Theorem true_condition_never_fails {Mem : Type} (widths : Widths) (libc : Libc)
    lang ndebug exdebug (env : Env) site (C : Cond Mem) (w w' : World Mem) :
  after_inclusion lang ndebug exdebug env →
  cond_eval C w = (Normal true, w') →
  ∃ code,
    requires env site C = Some code ∧
    ensures env site C = Some code ∧
    exec widths libc code w = (Normal (), if ndebug then w else w') ∧
    failed (exec widths libc code w) = false.
Proof.
  intros Hinc HC. apply after_inclusion_configured in Hinc.
  eexists. split_and!.
  - by eapply requires_configured.
  - by eapply ensures_configured.
  - destruct ndebug; [done |].
    rewrite exec_check_debug. by apply checked_true.
  - destruct ndebug; [done |].
    rewrite exec_check_debug. by erewrite checked_true.
Qed.

Lemma true_condition_never_fails_witness :
  after_inclusion LangCpp false true (Examples.env_of LangCpp false true) ∧
  cond_eval (Examples.solde_positive true) Examples.w0
  = (Normal true, {| stderr := ""; mem := 1 |}) ∧
  ∃ code,
    requires (Examples.env_of LangCpp false true) Examples.site0
      (Examples.solde_positive true) = Some code ∧
    ensures (Examples.env_of LangCpp false true) Examples.site0
      (Examples.solde_positive true) = Some code ∧
    exec LP64 (glibc "bank") code Examples.w0
    = (Normal (), {| stderr := ""; mem := 1 |}) ∧
    failed (exec LP64 (glibc "bank") code Examples.w0) = false.
Proof.
  assert (H : after_inclusion LangCpp false true (Examples.env_of LangCpp false true))
    by inclusion_by_evaluation LangCpp (flag_directives false true).
  split_and!; [exact H | reflexivity |].
  exact (true_condition_never_fails LP64 (glibc "bank") LangCpp false true _
           Examples.site0 (Examples.solde_positive true) Examples.w0
           {| stderr := ""; mem := 1 |} H eq_refl).
Defined.

(** C5, as amended.  The two halves are the other way round: when
    [NDEBUG] is not defined at the inclusion, [requires(C)] and
    [ensures(C)] contain [C] once, evaluate it first and, where it comes
    out false, go on with failure handling; when [NDEBUG] is defined, [C]
    does not occur in the expansion and is not evaluated at all. *)
Theorem contracts_check_only_without_ndebug {Mem : Type} (widths : Widths)
    (libc : Libc) lang ndebug exdebug (env : Env) site (C : Cond Mem)
    (w : World Mem) :
  after_inclusion lang ndebug exdebug env →
  ∃ code,
    requires env site C = Some code ∧
    ensures env site C = Some code ∧
    if ndebug
    then user_parts code = [] ∧ exec widths libc code w = (Normal (), w)
    else user_parts code = [inl C] ∧
         exec widths libc code w
         = match cond_eval C w with
           | (Normal true, w') => (Normal (), w')
           | (Normal false, w') => failure_handling libc lang exdebug site C w'
           | (Thrown e, w') => (Thrown e, w')
           | (Aborted, w') => (Aborted, w')
           | (Diverged, w') => (Diverged, w')
           end.
Proof.
  intros Hinc. apply after_inclusion_configured in Hinc.
  eexists. split_and!.
  - by eapply requires_configured.
  - by eapply ensures_configured.
  - destruct ndebug; [done |]. split.
    + unfold CONTRACTS_ASSERT_expansion. by destruct (exdebug && is_cpp lang).
    + rewrite exec_check_debug. unfold checked, bind.
      by destruct (cond_eval C w) as [[[] | | |] ?].
Qed.

Lemma contracts_check_only_without_ndebug_witness :
  after_inclusion LangC false false (Examples.env_of LangC false false) ∧
  ∃ code,
    requires (Examples.env_of LangC false false) Examples.site0
      (Examples.solde_positive false) = Some code ∧
    ensures (Examples.env_of LangC false false) Examples.site0
      (Examples.solde_positive false) = Some code ∧
    user_parts code = [inl (Examples.solde_positive false)] ∧
    exec LP64 (glibc "bank") code Examples.w0
    = (Aborted,
       {| stderr := "bank: account.cpp:42: withdraw: Assertion `solde > 0' failed."
                    +:+ newline;
          mem := 1 |}).
Proof.
  assert (H : after_inclusion LangC false false (Examples.env_of LangC false false))
    by inclusion_by_evaluation LangC (flag_directives false false).
  split; [exact H |].
  destruct (contracts_check_only_without_ndebug LP64 (glibc "bank") LangC false
              false _ Examples.site0 (Examples.solde_positive false)
              Examples.w0 H) as (code & Hr & He & Hu & Hx).
  exists code. split_and!; [exact Hr | exact He | exact Hu |].
  rewrite Hx. vm_compute. reflexivity.
Defined.

(** C5 as written fails: with the debug flag ([NDEBUG]) set, a false
    condition that counts its evaluations is not evaluated and nothing
    fails; with the flag unset the same condition is evaluated. *)
Lemma debug_flag_set_checks_counterexample :
  cond_eval (Examples.solde_positive false) Examples.w0
  = (Normal false, {| stderr := ""; mem := 1 |}) ∧
  (∃ code,
     requires (Examples.env_of LangC true false) Examples.site0
       (Examples.solde_positive false) = Some code ∧
     exec LP64 (glibc "bank") code Examples.w0 = (Normal (), Examples.w0) ∧
     failed (exec LP64 (glibc "bank") code Examples.w0) = false) ∧
  (∃ code,
     requires (Examples.env_of LangC false false) Examples.site0
       (Examples.solde_positive false) = Some code ∧
     mem (exec LP64 (glibc "bank") code Examples.w0).2 = 1 ∧
     failed (exec LP64 (glibc "bank") code Examples.w0) = true).
Proof.
  split_and!; [reflexivity | |]; eexists;
    (split; [vm_compute; reflexivity |]); split; reflexivity.
Qed.

(** The GNU format has the content C99 asks for. *)
Lemma append_assoc (a b c : string) : (a +:+ b) +:+ c = a +:+ (b +:+ c).
Proof.
  induction a as [| x a IH]; [done |].
  change (String x ((a +:+ b) +:+ c) = String x (a +:+ (b +:+ c))).
  by rewrite IH.
Qed.

Lemma glibc_conforming progname : conforming (glibc progname).
Proof.
  intros text site. unfold occurs_in, glibc. cbn [assert_message]. split_and!.
  - exists (progname +:+ ": " +:+ site_file site +:+ ":"
            +:+ decimal (site_line site) +:+ ": " +:+ site_func site
            +:+ ": Assertion `"), ("' failed." +:+ newline).
    by rewrite !append_assoc.
  - exists (progname +:+ ": "). eexists. by rewrite !append_assoc.
  - exists (progname +:+ ": " +:+ site_file site +:+ ":"). eexists.
    by rewrite !append_assoc.
Qed.

Lemma prefix_app (sub post : string) : String.prefix sub (sub +:+ post) = true.
Proof.
  induction sub as [| a sub IH]; [by destruct post |].
  change (String.prefix (String a sub) (String a (sub +:+ post)) = true).
  cbn [String.prefix]. by destruct (ascii_dec a a).
Qed.

Lemma occurs_in_occursb (sub s : string) : occurs_in sub s → occursb sub s = true.
Proof.
  intros (pre & post & ->). induction pre as [| a pre IH].
  - change (occursb sub (sub +:+ post) = true).
    destruct (sub +:+ post) eqn:E; cbn [occursb]; rewrite <- E, prefix_app; done.
  - change (occursb sub (String a (pre +:+ sub +:+ post)) = true).
    cbn [occursb]. rewrite IH. apply orb_true_r.
Qed.

(** ** Arguments as written, and macros of the unit *)

Lemma after_inclusion_in_force lang ndebug exdebug (env : Env) :
  after_inclusion lang ndebug exdebug env → in_force lang ndebug exdebug env.
Proof. intros H. by exists env. Qed.

Lemma in_force_configured lang ndebug exdebug (env : Env) :
  in_force lang ndebug exdebug env → configured lang ndebug exdebug env.
Proof.
  intros (env0 & Hinc & Hsame). apply after_inclusion_configured in Hinc.
  destruct Hinc as [[] ? ? ?]. unfold header_macros, guarded_names in Hsame.
  split; [split |..]; rewrite Hsame; first [done | repeat constructor].
Qed.

(** Defining a macro of another name keeps the header's macros in force. *)
Lemma in_force_insert lang ndebug exdebug (env : Env) name body :
  in_force lang ndebug exdebug env →
  name ∉ header_macros →
  in_force lang ndebug exdebug (<[name := body]> env).
Proof.
  intros (env0 & Hinc & Hsame) Hname. exists env0. split; [done |].
  intros n Hn. rewrite lookup_insert_ne; [by apply Hsame |].
  by intros ->.
Qed.

Lemma expand_no_macro (env : Env) (ts : list Token) :
  Forall (λ t, env !! spelling t = None) ts → expand env ts = Some ts.
Proof.
  unfold expand. intros Hall.
  assert (H : mapM (expand_token env) ts = Some ((λ t, [t]) <$> ts)).
  { apply mapM_Some. induction Hall as [| t ts Ht _ IH]; cbn.
    - constructor.
    - constructor; [| done]. unfold expand_token. by rewrite Ht. }
  rewrite H. cbn. f_equal. clear. induction ts as [| t ts IH]; cbn; [done |].
  by rewrite IH.
Qed.

(** A condition that names no macro reaches [#] as it is written. *)
Lemma argument_no_macro {Mem : Type} (env : Env) (W : Written Mem) (C : Cond Mem) :
  argument env W = Some C →
  Forall (λ t, env !! spelling t = None) (written_tokens W) →
  cond_text C = literal_text W.
Proof.
  unfold argument. intros H Hall. rewrite (expand_no_macro _ _ Hall) in H.
  cbn in H. by injection H as <-.
Qed.

Lemma argument_text {Mem : Type} (env : Env) (W : Written Mem) (C : Cond Mem) :
  argument env W = Some C →
  ∃ ts, expand env (written_tokens W) = Some ts ∧
        cond_text C = stringify ts ∧ cond_eval C = written_eval W.
Proof.
  unfold argument. intros H.
  destruct (expand env (written_tokens W)) as [ts |]; cbn in H; [| done].
  injection H as <-. by exists ts.
Qed.

(* [in_force] for a sample table: the table of a unit given by its flags,
   with one macro of the unit's own on top *)
Ltac in_force_by_evaluation lang ndebug exdebug :=
  apply in_force_insert;
  [ apply after_inclusion_in_force;
    inclusion_by_evaluation lang (flag_directives ndebug exdebug)
  | let Hin := fresh "Hin" in
    unfold header_macros, guarded_names; cbn [app]; intros Hin;
    repeat (apply elem_of_cons in Hin as [Hin | Hin]; [discriminate Hin |]);
    by apply elem_of_nil in Hin ].







(** ** Claims about [assert_exception] (C4, C10) *)

(** C4, as amended.  In C++ with [NDEBUG] not defined at the inclusion,
    [assert_exception(code, K)] runs [code] and then: if [code] ends
    without an exception, the failure is reported with the message
    [No exceptions has been thrown (expected: “K”).] and the process
    aborted; if [code] throws an exception that [catch (K)] does not
    take, the same with the message
    [An unexpected exception has been thrown (expected: “K”).]; if
    [code] throws an exception that [catch (K)] takes, control goes on
    normally in the world the [throw] left.  The report has the format
    of [__contracts_assert_failed]. *)
Theorem assert_exception_outcomes {Mem : Type} (widths : Widths) (libc : Libc)
    exdebug (env : Env) site (code : Code Mem) (K : Handler)
    (w : World Mem) (r : Outcome ()) (w' : World Mem) :
  after_inclusion LangCpp false exdebug env →
  exec widths libc code w = (r, w') →
  ∃ body,
    assert_exception env site code K = Some body ∧
    exec widths libc body w
    = match r with
      | Normal _ =>
          (Aborted,
           with_stderr w'
             ("*** assertion failed at " +:+ site_file site +:+ ":"
              +:+ decimal (to_unsigned_long widths
                             (to_size_t widths (site_line site)))
              +:+ newline
              +:+ ("No exceptions has been thrown (expected: “"
                   +:+ handler_text K +:+ "”).")
              +:+ newline))
      | Thrown e =>
          if matches (handler_type K) e then (Normal (), w')
          else
            (Aborted,
             with_stderr w'
               ("*** assertion failed at " +:+ site_file site +:+ ":"
                +:+ decimal (to_unsigned_long widths
                               (to_size_t widths (site_line site)))
                +:+ newline
                +:+ ("An unexpected exception has been thrown (expected: “"
                     +:+ handler_text K +:+ "”).")
                +:+ newline))
      | Aborted => (Aborted, w')
      | Diverged => (Diverged, w')
      end.
Proof.
  intros Hinc Hcode. apply after_inclusion_configured in Hinc.
  eexists. split; [by eapply assert_exception_configured |]. cbn match.
  destruct r as [[] | e | |].
  - rewrite (exec_assert_exception_no_exception _ _ site _ K _ _ Hcode).
    reflexivity.
  - destruct (matches (handler_type K) e) eqn:Hm.
    + by rewrite (exec_assert_exception_expected _ _ site _ K _ _ _ Hcode Hm).
    + rewrite (exec_assert_exception_unexpected _ _ site _ K _ _ _ Hcode Hm).
      reflexivity.
  - unfold assert_exception_argument. cbn [exec]. unfold bind. by rewrite Hcode.
  - unfold assert_exception_argument. cbn [exec]. unfold bind. by rewrite Hcode.
Qed.

Lemma assert_exception_outcomes_witness :
  after_inclusion LangCpp false false (Examples.env_of LangCpp false false) ∧
  exec LP64 (glibc "bank") Examples.v_at_2 Examples.w0
  = (Thrown {| exn_type := std_out_of_range;
               exn_what := "vector::_M_range_check" |},
     {| stderr := ""; mem := 1 |}) ∧
  ∃ body,
    assert_exception (Examples.env_of LangCpp false false) Examples.site0
      Examples.v_at_2 Examples.logic_error = Some body ∧
    exec LP64 (glibc "bank") body Examples.w0
    = (Normal (), {| stderr := ""; mem := 1 |}).
Proof.
  assert (H : after_inclusion LangCpp false false (Examples.env_of LangCpp false false))
    by inclusion_by_evaluation LangCpp (flag_directives false false).
  split_and!; [exact H | reflexivity |].
  exact (assert_exception_outcomes LP64 (glibc "bank") false _ Examples.site0
           Examples.v_at_2 Examples.logic_error Examples.w0 _ _ H eq_refl).
Defined.

(** C4 as written fails on the wording of the two messages: the code
    says [No exceptions has been thrown] and puts the expected type
    between [“] and [”]. *)
Lemma assert_exception_messages_counterexample :
  (∃ body,
     assert_exception (Examples.env_of LangCpp false false) Examples.site0
       Examples.harmless Examples.out_of_range = Some body ∧
     exec LP64 (glibc "bank") Examples.harmless Examples.w0
     = (Normal (), {| stderr := ""; mem := 1 |}) ∧
     stderr (exec LP64 (glibc "bank") body Examples.w0).2
     = "*** assertion failed at account.cpp:42" +:+ newline
       +:+ "No exceptions has been thrown (expected: “std::out_of_range”)."
       +:+ newline ∧
     stderr (exec LP64 (glibc "bank") body Examples.w0).2
     ≠ "*** assertion failed at account.cpp:42" +:+ newline
       +:+ Spec.msg_no_exception "std::out_of_range" +:+ newline) ∧
  (∃ body,
     assert_exception (Examples.env_of LangCpp false false) Examples.site0
       Examples.v_at_2 Examples.runtime_error = Some body ∧
     matches std_runtime_error
       {| exn_type := std_out_of_range; exn_what := "vector::_M_range_check" |}
     = false ∧
     stderr (exec LP64 (glibc "bank") body Examples.w0).2
     = "*** assertion failed at account.cpp:42" +:+ newline
       +:+ "An unexpected exception has been thrown "
       +:+ "(expected: “std::runtime_error”)."
       +:+ newline ∧
     stderr (exec LP64 (glibc "bank") body Examples.w0).2
     ≠ "*** assertion failed at account.cpp:42" +:+ newline
       +:+ Spec.msg_unexpected_exception "std::runtime_error" +:+ newline).
Proof.
  split; eexists; (split; [vm_compute; reflexivity |]);
    (split_and!; [reflexivity.. |]); vm_compute; discriminate.
Qed.

(** C10. In C++ with [NDEBUG] not defined at the inclusion, and
    whether or not [EXDEBUG] is defined, both failures of
    [assert_exception(code, K)] (no exception, or an exception
    [catch (K)] does not take) are the call of
    [__contracts_assert_failed]: the report is written and the process
    aborted.  [assert_exception] never lets an exception out, a
    [ContractViolated] or any other. *)
Theorem assert_exception_failure_aborts {Mem : Type} (widths : Widths)
    (libc : Libc) exdebug (env : Env) site (code : Code Mem) (K : Handler)
    (w : World Mem) :
  after_inclusion LangCpp false exdebug env →
  ∃ body,
    assert_exception env site code K = Some body ∧
    (∀ w', exec widths libc code w = (Normal (), w') →
           exec widths libc body w
           = __contracts_assert_failed widths (site_file site)
               (to_size_t widths (site_line site)) (msg_no_exception K) w' ∧
           (exec widths libc body w).1 = Aborted) ∧
    (∀ e w', exec widths libc code w = (Thrown e, w') →
             matches (handler_type K) e = false →
             exec widths libc body w
             = __contracts_assert_failed widths (site_file site)
                 (to_size_t widths (site_line site))
                 (msg_unexpected_exception K) w' ∧
             (exec widths libc body w).1 = Aborted) ∧
    (∀ e, (exec widths libc body w).1 ≠ Thrown e).
Proof.
  intros Hinc. apply after_inclusion_configured in Hinc.
  eexists. split; [by eapply assert_exception_configured |]. cbn match.
  split_and!.
  - intros w' Hcode.
    by rewrite (exec_assert_exception_no_exception _ _ site _ K _ _ Hcode).
  - intros e w' Hcode Hm.
    by rewrite (exec_assert_exception_unexpected _ _ site _ K _ _ _ Hcode Hm).
  - intros e. destruct (exec widths libc code w) as [[[] | e' | |] w'] eqn:Hcode.
    + by rewrite (exec_assert_exception_no_exception _ _ site _ K _ _ Hcode).
    + destruct (matches (handler_type K) e') eqn:Hm.
      * by rewrite (exec_assert_exception_expected _ _ site _ K _ _ _ Hcode Hm).
      * by rewrite (exec_assert_exception_unexpected _ _ site _ K _ _ _ Hcode Hm).
    + unfold assert_exception_argument. cbn [exec]. unfold bind. by rewrite Hcode.
    + unfold assert_exception_argument. cbn [exec]. unfold bind. by rewrite Hcode.
Qed.

Lemma assert_exception_failure_aborts_witness :
  after_inclusion LangCpp false true (Examples.env_of LangCpp false true) ∧
  ∃ body,
    assert_exception (Examples.env_of LangCpp false true) Examples.site0
      Examples.harmless Examples.out_of_range = Some body ∧
    exec LP64 (glibc "bank") body Examples.w0
    = (Aborted,
       {| stderr := "*** assertion failed at account.cpp:42" +:+ newline
                    +:+ "No exceptions has been thrown "
                    +:+ "(expected: “std::out_of_range”)." +:+ newline;
          mem := 1 |}).
Proof.
  assert (H : after_inclusion LangCpp false true (Examples.env_of LangCpp false true))
    by inclusion_by_evaluation LangCpp (flag_directives false true).
  split; [exact H |].
  destruct (assert_exception_failure_aborts LP64 (glibc "bank") true _
              Examples.site0 Examples.harmless Examples.out_of_range
              Examples.w0 H) as (body & Ha & Hno & _ & _).
  exists body. split; [exact Ha |].
  destruct (Hno {| stderr := ""; mem := 1 |} eq_refl) as [Hx _].
  rewrite Hx. reflexivity.
Defined.

(** * Further properties of the header *)

(** ** What an inclusion does to the macro table *)

Lemma define_lookup_ne name body (env env' : Env) n :
  define name body env = Some env' → n ≠ name → env' !! n = env !! n.
Proof.
  unfold define. intros H Hn. destruct (env !! name) as [old |].
  - case_decide; by simplify_eq.
  - injection H as <-. by rewrite lookup_insert_ne.
Qed.

(* one [#define] of a sequence: name the table it gives and keep the
   fact that it leaves the other names alone *)
Ltac define_frame H :=
  match type of H with
  | (define ?name ?body ?e ≫= _) = Some _ =>
      let e' := fresh "e" in
      let E := fresh "E" in
      destruct (define name body e) as [e' |] eqn:E;
      cbn [mbind option_bind] in H; [| discriminate H];
      pose proof (λ n, define_lookup_ne _ _ _ _ n E)
  | define ?name ?body ?e = Some _ =>
      pose proof (λ n, define_lookup_ne _ _ _ _ n H)
  end.

Lemma guarded_part_frame (env env' : Env) n :
  guarded_part env = Some env' → n ∉ guarded_names → env' !! n = env !! n.
Proof.
  unfold guarded_part, guarded_names. intros H Hn.
  repeat (apply not_elem_of_cons in Hn as [? Hn]).
  destruct (defined "H_CONTRACTS" env); [by injection H as <- |].
  do 5 define_frame H.
  destruct (defined "__cplusplus" _).
  - do 2 define_frame H. 
    repeat match goal with Hf : ∀ n, _ → _ !! n = _ |- _ => rewrite Hf by done; clear Hf end.
    done.
  - injection H as <-.
    repeat match goal with Hf : ∀ n, _ → _ !! n = _ |- _ => rewrite Hf by done; clear Hf end.
    done.
Qed.

Lemma configurable_part_frame (env env' : Env) n :
  configurable_part env = Some env' →
  n ≠ "if_else_debug" → n ≠ "CONTRACTS_ASSERT" → env' !! n = env !! n.
Proof.
  unfold configurable_part, undef. intros H H1 H2.
  set (env1 := if defined "if_else_debug" env then _ else env) in H.
  assert (Hsame : env1 !! n = env !! n).
  { subst env1. destruct (defined "if_else_debug" env); [| done].
    by rewrite !lookup_delete_ne. }
  rewrite <- Hsame. clearbody env1.
  destruct (defined "NDEBUG" env1).
  - do 2 define_frame H.
    repeat match goal with Hf : ∀ n, _ → _ !! n = _ |- _ => rewrite Hf by done; clear Hf end.
    done.
  - define_frame H. destruct (_ && _); define_frame H;
    repeat match goal with Hf : ∀ n, _ → _ !! n = _ |- _ => rewrite Hf by done; clear Hf end;
    done.
Qed.

Lemma Some_default {A : Type} (d : A) (o : option A) :
  bool_decide (is_Some o) = true → o = Some (default d o).
Proof. intros H. apply bool_decide_eq_true in H as [a ->]. done. Qed.

(** X1. The directives of the header itself (lines 55-197) define and
    remove no name but [H_CONTRACTS], [if_debug], [if_not_debug],
    [requires], [ensures], [validate], [assert_exception],
    [if_else_debug] and [CONTRACTS_ASSERT]: every other name, [NDEBUG]
    and [EXDEBUG] among them, has after them the definition it had
    before, or none, from every macro table on which they are accepted.
    (What else an inclusion changes comes from the standard headers of
    lines 41-53.) *)
Theorem own_directives_touch_only_own_macros (env0 env1 env : Env) n :
  guarded_part env0 = Some env1 →
  configurable_part env1 = Some env →
  n ∉ own_macros →
  env !! n = env0 !! n.
Proof.
  intros Hg Hc Hn. unfold own_macros in Hn.
  apply not_elem_of_app in Hn as [Hgn Hn].
  repeat (apply not_elem_of_cons in Hn as [? Hn]).
  rewrite (configurable_part_frame _ _ n Hc) by done.
  by apply (guarded_part_frame _ _ n Hg).
Qed.

Lemma own_directives_touch_only_own_macros_witness :
  guarded_part (env_before LangCpp [DefineFlag EXDEBUG])
  = Some (default ∅ (guarded_part (env_before LangCpp [DefineFlag EXDEBUG]))) ∧
  configurable_part
    (default ∅ (guarded_part (env_before LangCpp [DefineFlag EXDEBUG])))
  = Some (default ∅
            (configurable_part
               (default ∅
                  (guarded_part (env_before LangCpp [DefineFlag EXDEBUG]))))) ∧
  ("EXDEBUG" ∉ own_macros) ∧
  default ∅
    (configurable_part
       (default ∅ (guarded_part (env_before LangCpp [DefineFlag EXDEBUG]))))
  !! "EXDEBUG"
  = env_before LangCpp [DefineFlag EXDEBUG] !! "EXDEBUG".
Proof.
  assert (H1 : guarded_part (env_before LangCpp [DefineFlag EXDEBUG])
               = Some (default ∅ (guarded_part
                                    (env_before LangCpp [DefineFlag EXDEBUG]))))
    by (apply Some_default; vm_compute; reflexivity).
  assert (H2 : configurable_part
                 (default ∅ (guarded_part
                               (env_before LangCpp [DefineFlag EXDEBUG])))
               = Some (default ∅
                         (configurable_part
                            (default ∅
                               (guarded_part
                                  (env_before LangCpp [DefineFlag EXDEBUG]))))))
    by (apply Some_default; vm_compute; reflexivity).
  assert (Hn : "EXDEBUG" ∉ own_macros).
  { unfold own_macros, guarded_names. cbn [app]. intros Hin.
    repeat (apply elem_of_cons in Hin as [Hin | Hin]; [discriminate Hin |]).
    by apply elem_of_nil in Hin. }
  split_and!; [exact H1 | exact H2 | exact Hn |].
  exact (own_directives_touch_only_own_macros _ _ _ "EXDEBUG" H1 H2 Hn).
Defined.

(** After an inclusion the macros of the standard headers are there. *)
Lemma contracts_h_standard (env0 env : Env) n :
  contracts_h env0 = Some env →
  n ∈ standard_macros →
  env !! n = Some Body_implementation.
Proof.
  unfold contracts_h. intros H Hs.
  destruct (guarded_part (standard_headers env0)) as [env1 |] eqn:Hg;
    cbn [mbind option_bind] in H; [| discriminate H].
  assert (Hm : n ∉ model_names).
  { intros Hm. by apply (model_names_not_standard n Hm). }
  unfold model_names in Hm.
  assert (Hgn : n ∉ guarded_names).
  { unfold guarded_names. intros Hin. apply Hm.
    repeat (apply elem_of_cons in Hin as [-> | Hin]; [repeat constructor |]).
    by apply elem_of_nil in Hin. }
  repeat (apply not_elem_of_cons in Hm as [? Hm]).
  rewrite (configurable_part_frame _ _ n H) by done.
  rewrite (guarded_part_frame _ _ n Hg Hgn).
  by apply standard_headers_standard.
Qed.

(** X2. Including the header a second time, with nothing in between,
    changes nothing: the include guard skips the guarded part, and the
    configurable part removes and puts back the same two definitions. *)
Theorem inclusion_is_idempotent lang (ds : list Directive) (env0 env : Env) :
  preprocess ds (initial_env lang) = Some env0 →
  contracts_h env0 = Some env →
  contracts_h env = Some env.
Proof.
  intros Hpre Hinc.
  destruct (preprocess_total lang ds) as (env0' & Hpre' & Hwf).
  rewrite Hpre in Hpre'. injection Hpre' as <-.
  destruct (contracts_h_spec _ _ Hwf) as (env' & Hinc' & Hwf1 & Hcfg & Hfr).
  rewrite Hinc in Hinc'. injection Hinc' as <-.
  destruct (contracts_h_spec _ _ Hwf1) as (env2 & Hinc2 & _ & Hcfg2 & Hfr2).
  rewrite Hinc2. f_equal. apply map_eq. intros n.
  destruct (decide (n ∈ header_macros)) as [Hn | Hn].
  - assert (Hflags : defined "NDEBUG" env = defined "NDEBUG" env0 ∧
                     defined "EXDEBUG" env = defined "EXDEBUG" env0).
    { unfold defined.
      rewrite (Hfr "NDEBUG")
        by first [ apply (flag_name_not_header NDEBUG)
                 | apply (flag_name_not_standard NDEBUG) ].
      by rewrite (Hfr "EXDEBUG")
        by first [ apply (flag_name_not_header EXDEBUG)
                 | apply (flag_name_not_standard EXDEBUG) ]. }
    destruct Hflags as [E1 E2]. rewrite E1, E2 in Hcfg2.
    by eapply configured_agree.
  - destruct (decide (n ∈ standard_macros)) as [Hs | Hs].
    + rewrite (contracts_h_standard _ _ n Hinc2 Hs).
      by rewrite (contracts_h_standard _ _ n Hinc Hs).
    + by apply Hfr2.
Qed.

Lemma inclusion_is_idempotent_witness :
  preprocess [DefineFlag NDEBUG] (initial_env LangC)
  = Some (env_before LangC [DefineFlag NDEBUG]) ∧
  contracts_h (env_before LangC [DefineFlag NDEBUG])
  = Some (env_after LangC [DefineFlag NDEBUG]) ∧
  contracts_h (env_after LangC [DefineFlag NDEBUG])
  = Some (env_after LangC [DefineFlag NDEBUG]).
Proof.
  destruct (after_inclusion_env_after LangC [DefineFlag NDEBUG])
    as (H0 & H & _).
  split_and!; [exact H0 | exact H |].
  exact (inclusion_is_idempotent LangC _ _ _ H0 H).
Defined.

(** ** The macros between inclusions *)

Lemma usable_of_configured lang ndebug exdebug (env : Env) :
  configured lang ndebug exdebug env → usable lang env.
Proof. intros []. by exists ndebug, exdebug, ndebug. Qed.

Lemma usable_same_macros lang (env env' : Env) :
  usable lang env →
  (∀ n, n ∈ header_macros → env' !! n = env !! n) →
  usable lang env'.
Proof.
  intros (nd & ex & nda & [] & ? & ? & ?) Hsame.
  exists nd, ex, nda.
  split_and!; [split |..]; rewrite Hsame; first [done | repeat constructor].
Qed.

(** Once the macros are there, no later directive takes one away. *)
Lemma directive_usable lang d (env env' : Env) :
  wf lang env →
  directive d env = Some env' →
  usable lang env ∨ d = IncludeContracts →
  usable lang env'.
Proof.
  intros Hwf Hd Hu. destruct d as [f | f | |].
  - destruct Hu as [Hu | ?]; [| done]. eapply usable_same_macros; [done |].
    intros n Hn. eapply flag_change_keeps_macros; eauto.
  - destruct Hu as [Hu | ?]; [| done]. eapply usable_same_macros; [done |].
    intros n Hn. eapply flag_change_keeps_macros; eauto.
  - destruct Hu as [(nd & ex & nda & [] & ? & ? & ?) | ?]; [| done].
    cbn [directive] in Hd. injection Hd as <-.
    exists nd, ex, (defined "NDEBUG" env).
    split_and!; [split |..];
      first [ apply assert_h_assert | by rewrite assert_h_other ].
  - cbn [directive] in Hd.
    destruct (contracts_h_spec _ _ Hwf) as (env2 & Hinc & _ & Hcfg & _).
    rewrite Hd in Hinc. injection Hinc as <-.
    by eapply usable_of_configured.
Qed.

Lemma preprocess_usable lang ds (env env' : Env) :
  wf lang env →
  preprocess ds env = Some env' →
  usable lang env ∨ IncludeContracts ∈ ds →
  usable lang env'.
Proof.
  revert env. induction ds as [| d ds IH]; intros env Hwf Hpre Hu.
  - injection Hpre as <-. destruct Hu as [? | Hin]; [done |].
    by apply elem_of_nil in Hin.
  - cbn [preprocess] in Hpre.
    destruct (directive_wf lang d env Hwf) as (env1 & Hd & Hwf1).
    rewrite Hd in Hpre. cbn [mbind option_bind] in Hpre.
    apply (IH env1 Hwf1 Hpre).
    destruct Hu as [Hu | Hin].
    + left. eapply directive_usable; [exact Hwf | exact Hd | by left].
    + apply elem_of_cons in Hin as [<- | Hin]; [| by right].
      left. eapply directive_usable; [exact Hwf | exact Hd | by right].
Qed.

(** Before the first inclusion none of the header's names is a macro. *)
Lemma preprocess_not_included ds (env env' : Env) n :
  (∀ n, n ∈ guarded_names → env !! n = None) →
  preprocess ds env = Some env' →
  IncludeContracts ∉ ds →
  n ∈ guarded_names →
  env' !! n = None.
Proof.
  revert env. induction ds as [| d ds IH]; intros env Hf Hpre Hnot Hn.
  - injection Hpre as <-. by apply Hf.
  - cbn [preprocess] in Hpre. apply not_elem_of_cons in Hnot as [Hd Hnot].
    destruct (directive d env) as [env1 |] eqn:Hdir;
      cbn [mbind option_bind] in Hpre; [| discriminate Hpre].
    apply (IH env1); [| done..].
    intros m Hm. rewrite <- (Hf m Hm).
    assert (Hh : m ∈ header_macros).
    { unfold header_macros. apply elem_of_app. by left. }
    assert (Hne : m ≠ "assert").
    { intros ->. unfold guarded_names in Hm.
      repeat (apply elem_of_cons in Hm as [? | Hm]; [done |]).
      by apply elem_of_nil in Hm. }
    destruct d as [f | f | |]; [| | | done].
    + eapply flag_change_keeps_macros; eauto.
    + eapply flag_change_keeps_macros; eauto.
    + cbn [directive] in Hdir. injection Hdir as <-. by apply assert_h_other.
Qed.

Lemma usable_expands {Mem : Type} lang (env : Env) site (C : Cond Mem)
    (obj : Obj Mem) (code : Code Mem) (K : Handler) :
  usable lang env →
  is_Some (requires env site C) ∧ is_Some (ensures env site C) ∧
  is_Some (if_debug env code) ∧ is_Some (if_not_debug env code) ∧
  (lang = LangCpp →
   is_Some (validate env site obj) ∧
   is_Some (assert_exception env site code K)).
Proof.
  intros (nd & ex & nda & [? Hd Hnd Hr He Hv Ha] & Hied & Hca & Has).
  unfold requires, ensures, validate, assert_exception, if_debug, if_not_debug,
    CONTRACTS_ASSERT, assert, if_else_debug.
  rewrite Hd, Hnd, Hr, He, Hied, Hca, Has.
  split_and!.
  - destruct nd, nda; cbn; try destruct (ex && is_cpp lang); by eexists.
  - destruct nd, nda; cbn; try destruct (ex && is_cpp lang); by eexists.
  - destruct nd; by eexists.
  - destruct nd; by eexists.
  - intros ->. rewrite Hv, Ha. cbn. split.
    + destruct nd, nda; cbn; try destruct (ex && true); by eexists.
    + destruct nd; by eexists.
Qed.

Lemma not_included_none lang (ds : list Directive) (env : Env) n :
  preprocess ds (initial_env lang) = Some env →
  IncludeContracts ∉ ds →
  n ∈ guarded_names →
  env !! n = None.
Proof.
  intros Hpre Hin Hn. eapply preprocess_not_included; [| exact Hpre | done..].
  destruct (initial_env_wf lang) as (_ & _ & [(Hf & _) | [[Hg] _]]); [done |].
  exfalso. by destruct lang.
Qed.

(** X3. In a translation unit the macros of the header expand exactly
    from the first inclusion on: at every place after an inclusion,
    whatever flags were changed, whatever was included again since,
    [requires], [ensures], [if_debug], [if_not_debug] (and in C++
    [validate] and [assert_exception]) have an expansion, so no use of
    them refers to a macro that is missing; before the first inclusion
    none of them is a macro. *)
Theorem macros_expand_iff_included {Mem : Type} lang (ds : list Directive)
    (env : Env) site (C : Cond Mem) (obj : Obj Mem) (code : Code Mem)
    (K : Handler) :
  preprocess ds (initial_env lang) = Some env →
  (IncludeContracts ∈ ds →
   is_Some (requires env site C) ∧ is_Some (ensures env site C) ∧
   is_Some (if_debug env code) ∧ is_Some (if_not_debug env code) ∧
   (lang = LangCpp →
    is_Some (validate env site obj) ∧
    is_Some (assert_exception env site code K))) ∧
  (IncludeContracts ∉ ds →
   requires env site C = None ∧ ensures env site C = None ∧
   if_debug env code = None ∧ if_not_debug env code = None ∧
   validate env site obj = None ∧ assert_exception env site code K = None).
Proof.
  intros Hpre. split; intros Hin.
  - apply usable_expands.
    eapply preprocess_usable; [apply initial_env_wf | exact Hpre | by right].
  - assert (Hnone : ∀ n, n ∈ guarded_names → env !! n = None).
    { intros n Hn. by eapply not_included_none. }
    unfold requires, ensures, validate, assert_exception, if_debug,
      if_not_debug.
    by rewrite !Hnone by (unfold guarded_names; repeat constructor).
Qed.

Lemma macros_expand_iff_included_witness :
  preprocess [IncludeContracts; DefineFlag NDEBUG; IncludeAssert]
    (initial_env LangC)
  = Some (env_before LangC [IncludeContracts; DefineFlag NDEBUG; IncludeAssert]) ∧
  is_Some (requires
             (env_before LangC [IncludeContracts; DefineFlag NDEBUG; IncludeAssert])
             Examples.site0 (Examples.solde_positive false)).
Proof.
  destruct (after_inclusion_env_after LangC
              [IncludeContracts; DefineFlag NDEBUG; IncludeAssert])
    as (H0 & _ & _).
  split; [exact H0 |].
  destruct (macros_expand_iff_included LangC _ _ Examples.site0
              (Examples.solde_positive false) Examples.crashing_obj
              Examples.harmless Examples.out_of_range H0) as [Hyes _].
  apply Hyes. repeat constructor.
Defined.

(** X4. In a C translation unit [validate] and [assert_exception] are
    never macros, whatever the unit defines and includes: their
    definitions are inside [#ifdef __cplusplus]. *)
Theorem cplusplus_macros_absent_in_c {Mem : Type} (ds : list Directive)
    (env : Env) site (obj : Obj Mem) (code : Code Mem) (K : Handler) :
  preprocess ds (initial_env LangC) = Some env →
  validate env site obj = None ∧ assert_exception env site code K = None.
Proof.
  intros Hpre. destruct (decide (IncludeContracts ∈ ds)) as [Hin | Hin].
  - assert (Hu : usable LangC env).
    { eapply preprocess_usable; [apply initial_env_wf | exact Hpre | by right]. }
    destruct Hu as (? & ? & ? & [? ? ? ? ? Hv Ha] & _).
    unfold validate, assert_exception. by rewrite Hv, Ha.
  - unfold validate, assert_exception.
    by rewrite !(not_included_none LangC ds env _ Hpre Hin)
      by (unfold guarded_names; repeat constructor).
Qed.

Lemma cplusplus_macros_absent_in_c_witness :
  preprocess [DefineFlag EXDEBUG; IncludeContracts] (initial_env LangC)
  = Some (env_before LangC [DefineFlag EXDEBUG; IncludeContracts]) ∧
  validate (env_before LangC [DefineFlag EXDEBUG; IncludeContracts])
    Examples.site0 (Examples.this_obj false) = None ∧
  assert_exception (env_before LangC [DefineFlag EXDEBUG; IncludeContracts])
    Examples.site0 Examples.v_at_2 Examples.out_of_range = None.
Proof.
  destruct (after_inclusion_env_after LangC [DefineFlag EXDEBUG; IncludeContracts])
    as (H0 & _ & _).
  split; [exact H0 |].
  exact (cplusplus_macros_absent_in_c _ _ Examples.site0 (Examples.this_obj false)
           Examples.v_at_2 Examples.out_of_range H0).
Defined.

Lemma define_lookup_eq name body (env env' : Env) :
  define name body env = Some env' → env' !! name = Some body.
Proof.
  unfold define. intros H. destruct (env !! name) as [old |] eqn:E.
  - case_decide; by simplify_eq.
  - injection H as <-. by rewrite lookup_insert_eq.
Qed.

(** X5. The default-mode check is only as active as [assert] is.  When
    a unit, after an inclusion without [NDEBUG], defines [NDEBUG] and
    includes <assert.h> itself (and not the header again), then in
    default mode [requires] and [ensures] stand for a no-op, while
    [if_else_debug] and [if_debug] still take the debugging branch; in
    C++ exception mode the checks stay as they were. *)
Theorem own_assert_h_switches_default_checks_off {Mem : Type} lang exdebug
    (env env' : Env) site (C : Cond Mem) (code : Code Mem) :
  after_inclusion lang false exdebug env →
  preprocess [DefineFlag NDEBUG; IncludeAssert] env = Some env' →
  requires env' site C
  = Some (Paren (if exdebug && is_cpp lang
                 then Paren (Conditional C VoidZero
                               (ThrowContractViolated (cond_text C)))
                 else Paren VoidZero)) ∧
  ensures env' site C = requires env' site C ∧
  if_debug env' code = Some code ∧
  if_not_debug env' code = Some VoidZero.
Proof.
  intros Hinc Hpre. apply after_inclusion_configured in Hinc.
  destruct Hinc as [[? Hd Hnd Hr He _ _] Hied Hca _].
  cbn [preprocess directive flag_name] in Hpre.
  destruct (define "NDEBUG" Body_flag env) as [env1 |] eqn:Hdef;
    cbn [mbind option_bind] in Hpre; [| discriminate Hpre].
  injection Hpre as <-.
  assert (Hsame : ∀ n, n ≠ "NDEBUG" → n ≠ "assert" →
                       assert_h env1 !! n = env !! n).
  { intros n ? ?. rewrite assert_h_other by done.
    by eapply define_lookup_ne. }
  assert (Has : assert_h env1 !! "assert" = Some Body_assert_ignore).
  { rewrite assert_h_assert.
    by rewrite (defined_Some _ _ _ (define_lookup_eq _ _ _ _ Hdef)). }
  unfold requires, ensures, if_debug, if_not_debug, CONTRACTS_ASSERT, assert,
    if_else_debug.
  rewrite Has, !Hsame by done. rewrite Hd, Hnd, Hr, He, Hied, Hca.
  cbn. by destruct (exdebug && is_cpp lang).
Qed.

Lemma own_assert_h_switches_default_checks_off_witness :
  after_inclusion LangC false false (Examples.env_of LangC false false) ∧
  preprocess [DefineFlag NDEBUG; IncludeAssert] (Examples.env_of LangC false false)
  = Some (env_before LangC [IncludeContracts; DefineFlag NDEBUG; IncludeAssert]) ∧
  requires (env_before LangC [IncludeContracts; DefineFlag NDEBUG; IncludeAssert])
    Examples.site0 Examples.crashing_cond
  = Some (Paren (Paren VoidZero)) ∧
  if_debug (env_before LangC [IncludeContracts; DefineFlag NDEBUG; IncludeAssert])
    Examples.harmless
  = Some Examples.harmless.
Proof.
  assert (H : after_inclusion LangC false false (Examples.env_of LangC false false))
    by inclusion_by_evaluation LangC (flag_directives false false).
  assert (Hpre : preprocess [DefineFlag NDEBUG; IncludeAssert]
                   (Examples.env_of LangC false false)
                 = Some (env_before LangC
                           [IncludeContracts; DefineFlag NDEBUG; IncludeAssert])).
  { destruct (after_inclusion_env_after LangC
                [IncludeContracts; DefineFlag NDEBUG; IncludeAssert])
      as (H0 & _ & _).
    destruct (after_inclusion_env_after LangC []) as (_ & H1 & _).
    change (env_before LangC []) with (initial_env LangC) in H1.
    cbn [preprocess directive] in H0. rewrite H1 in H0. exact H0. }
  destruct (own_assert_h_switches_default_checks_off LangC false _ _
              Examples.site0 Examples.crashing_cond Examples.harmless H Hpre)
    as (Hr & _ & Hd & _).
  split_and!; [exact H | exact Hpre | exact Hr | exact Hd].
Defined.

(** ** Conditional code *)

(** X6. [if_debug] and [if_not_debug] are complementary: after an
    inclusion, one of [if_debug(code)] and [if_not_debug(code)] is
    [code] and the other is [(void) 0] ([if_debug] keeps the code when
    [NDEBUG] was not defined), so that writing both runs [code] once,
    in every configuration. *)
Theorem if_debug_if_not_debug_complementary {Mem : Type} (widths : Widths)
    (libc : Libc) lang ndebug exdebug (env : Env) (code : Code Mem)
    (w : World Mem) :
  after_inclusion lang ndebug exdebug env →
  if_debug env code = Some (if ndebug then VoidZero else code) ∧
  if_not_debug env code = Some (if ndebug then code else VoidZero) ∧
  ∃ c1 c2,
    if_debug env code = Some c1 ∧ if_not_debug env code = Some c2 ∧
    (user_parts c1 ++ user_parts c2)%list = user_parts code ∧
    exec widths libc (Seq c1 c2) w = exec widths libc code w.
Proof.
  intros Hinc. apply after_inclusion_configured in Hinc.
  rewrite (if_debug_configured _ _ _ _ code Hinc).
  rewrite (if_not_debug_configured _ _ _ _ code Hinc).
  split_and!; [done.. |]. do 2 eexists. split_and!; [done.. | |].
  - destruct ndebug; cbn [user_parts]; [done | apply app_nil_r].
  - destruct ndebug; cbn [exec]; unfold bind, ret; [done |].
    by destruct (exec widths libc code w) as [[[] | | |] ?].
Qed.

Lemma if_debug_if_not_debug_complementary_witness :
  after_inclusion LangC true false (Examples.env_of LangC true false) ∧
  if_debug (Examples.env_of LangC true false) Examples.harmless = Some VoidZero ∧
  if_not_debug (Examples.env_of LangC true false) Examples.harmless
  = Some Examples.harmless.
Proof.
  assert (H : after_inclusion LangC true false (Examples.env_of LangC true false))
    by inclusion_by_evaluation LangC (flag_directives true false).
  destruct (if_debug_if_not_debug_complementary LP64 (glibc "bank") LangC true
              false _ Examples.harmless Examples.w0 H) as (H1 & H2 & _).
  split_and!; [exact H | exact H1 | exact H2].
Defined.

(** ** Failing checks *)

(** X7. [EXDEBUG] has no effect in C: with [NDEBUG] not defined at the
    inclusion, a failed [requires] or [ensures] of a C unit aborts
    through [assert] whether or not [EXDEBUG] is defined, and no
    enclosing handler can take the failure. *)
Theorem exdebug_is_ignored_in_c {Mem : Type} (widths : Widths) (libc : Libc)
    exdebug (env : Env) site (C : Cond Mem) (w w' : World Mem) :
  after_inclusion LangC false exdebug env →
  cond_eval C w = (Normal false, w') →
  requires env site C = Some (Paren (LibcAssert site C)) ∧
  ensures env site C = Some (Paren (LibcAssert site C)) ∧
  ∀ handlers,
    exec widths libc (TryCatch (Paren (LibcAssert site C)) handlers) w
    = (Aborted, with_stderr w' (assert_message libc (cond_text C) site)).
Proof.
  intros Hinc HC. apply after_inclusion_configured in Hinc.
  rewrite (requires_configured _ _ _ _ site C Hinc).
  rewrite (ensures_configured _ _ _ _ site C Hinc).
  unfold CONTRACTS_ASSERT_expansion. rewrite andb_false_r.
  split_and!; [done.. |]. intros handlers.
  cbn [exec]. unfold libc_assert, bind. by rewrite HC.
Qed.

Lemma exdebug_is_ignored_in_c_witness :
  after_inclusion LangC false true (Examples.env_of LangC false true) ∧
  cond_eval (Examples.solde_positive false) Examples.w0
  = (Normal false, {| stderr := ""; mem := 1 |}) ∧
  requires (Examples.env_of LangC false true) Examples.site0
    (Examples.solde_positive false)
  = Some (Paren (LibcAssert Examples.site0 (Examples.solde_positive false))).
Proof.
  assert (H : after_inclusion LangC false true (Examples.env_of LangC false true))
    by inclusion_by_evaluation LangC (flag_directives false true).
  split_and!; [exact H | reflexivity |].
  destruct (exdebug_is_ignored_in_c LP64 (glibc "bank") true _ Examples.site0
              (Examples.solde_positive false) Examples.w0
              {| stderr := ""; mem := 1 |} H eq_refl) as (Hr & _).
  exact Hr.
Defined.

(** An exception no clause takes goes through a [try]. *)
Lemma exec_try_not_caught {Mem : Type} (widths : Widths) (libc : Libc)
    (body : Code Mem) handlers e (w w' : World Mem) :
  exec widths libc body w = (Thrown e, w') →
  Forall (λ kh : CatchClause * Code Mem, catches kh.1 e = false) handlers →
  exec widths libc (TryCatch body handlers) w = (Thrown e, w').
Proof.
  intros Hb Hall. cbn [exec]. rewrite Hb.
  induction Hall as [| [k h] hs Hk _ IH]; [done |].
  cbn [fst] in Hk. by rewrite Hk.
Qed.

(** X8. The exception of a failed check is a [ContractViolated] and
    nothing else: in C++ exception mode, a [try] around a failed
    [requires] or [ensures] whose clauses all name types other than
    [ContractViolated], [std::logic_error] and [std::exception] does
    not take it; it propagates unchanged. *)
Theorem contract_violation_passes_other_handlers {Mem : Type} (widths : Widths)
    (libc : Libc) (env : Env) site (C : Cond Mem) (w w' : World Mem)
    (handlers : list (CatchClause * Code Mem)) :
  after_inclusion LangCpp false true env →
  cond_eval C w = (Normal false, w') →
  Forall (λ kh, ∃ K, kh.1 = CatchType K ∧
                     handler_type K ∉ [ContractViolated; std_logic_error;
                                       std_exception]) handlers →
  ∃ code,
    requires env site C = Some code ∧
    ensures env site C = Some code ∧
    exec widths libc (TryCatch code handlers) w
    = (Thrown (ContractViolated_new (cond_text C)), w').
Proof.
  intros Hinc HC Hall. apply after_inclusion_configured in Hinc.
  eexists. split_and!.
  - by eapply requires_configured.
  - by eapply ensures_configured.
  - apply exec_try_not_caught.
    + rewrite exec_check_debug. by erewrite checked_false.
    + eapply Forall_impl; [exact Hall |].
      intros [k h] (K & -> & HK). cbn. unfold matches.
      by apply bool_decide_eq_false.
Qed.

Lemma contract_violation_passes_other_handlers_witness :
  after_inclusion LangCpp false true (Examples.env_of LangCpp false true) ∧
  cond_eval (Examples.solde_positive false) Examples.w0
  = (Normal false, {| stderr := ""; mem := 1 |}) ∧
  ∃ code,
    requires (Examples.env_of LangCpp false true) Examples.site0
      (Examples.solde_positive false) = Some code ∧
    exec LP64 (glibc "bank")
      (TryCatch code [(CatchType Examples.out_of_range, Examples.harmless);
                      (CatchType Examples.runtime_error, Examples.harmless)])
      Examples.w0
    = (Thrown {| exn_type := ContractViolated; exn_what := "solde > 0" |},
       {| stderr := ""; mem := 1 |}).
Proof.
  assert (H : after_inclusion LangCpp false true (Examples.env_of LangCpp false true))
    by inclusion_by_evaluation LangCpp (flag_directives false true).
  split_and!; [exact H | reflexivity |].
  assert (HF : Forall (λ kh : CatchClause * Code nat,
                         ∃ K, kh.1 = CatchType K ∧
                              handler_type K ∉ [ContractViolated; std_logic_error;
                                                std_exception])
                 [(CatchType Examples.out_of_range, Examples.harmless);
                  (CatchType Examples.runtime_error, Examples.harmless)]).
  { constructor; [| constructor; [| constructor]];
      (eexists; split; [reflexivity |]);
      apply not_elem_of_cons; (split; [discriminate |]);
      apply not_elem_of_cons; (split; [discriminate |]);
      apply not_elem_of_cons; (split; [discriminate |]);
      apply not_elem_of_nil. }
  destruct (contract_violation_passes_other_handlers LP64 (glibc "bank") _
              Examples.site0 (Examples.solde_positive false) Examples.w0
              {| stderr := ""; mem := 1 |} _ H eq_refl HF)
    as (code & Hr & _ & Hx).
  exists code. split; [exact Hr | exact Hx].
Defined.

(** ** [assert_exception] around a check, and the failure report *)

(** X9. The use the header names for exception mode: in C++ with
    [EXDEBUG] and without [NDEBUG], [assert_exception(requires(C), K)]
    for [K] one of [ContractViolated], [std::logic_error] and
    [std::exception] goes on normally exactly when the contract is
    violated; when [C] holds it is the test that fails, with the
    "no exception" report and [abort]. *)
Theorem assert_exception_detects_violation {Mem : Type} (widths : Widths)
    (libc : Libc) (env : Env) site site' (C : Cond Mem) (K : Handler)
    (w : World Mem) (b : bool) (w' : World Mem) :
  after_inclusion LangCpp false true env →
  cond_eval C w = (Normal b, w') →
  handler_type K ∈ [ContractViolated; std_logic_error; std_exception] →
  ∃ check body,
    requires env site C = Some check ∧
    ensures env site C = Some check ∧
    assert_exception env site' check K = Some body ∧
    exec widths libc body w
    = if b
      then (Aborted,
            with_stderr w'
              (failure_report widths (site_file site')
                 (to_size_t widths (site_line site')) (msg_no_exception K)))
      else (Normal (), w').
Proof.
  intros Hinc HC HK. apply after_inclusion_configured in Hinc.
  do 2 eexists. split_and!.
  - by eapply requires_configured.
  - by eapply ensures_configured.
  - by eapply assert_exception_configured.
  - cbn match. destruct b.
    + erewrite exec_assert_exception_no_exception; [done |].
      rewrite exec_check_debug. by apply checked_true.
    + eapply exec_assert_exception_expected.
      * rewrite exec_check_debug. by erewrite checked_false.
      * unfold matches. by apply bool_decide_eq_true.
Qed.

Lemma assert_exception_detects_violation_witness :
  after_inclusion LangCpp false true (Examples.env_of LangCpp false true) ∧
  cond_eval (Examples.solde_positive false) Examples.w0
  = (Normal false, {| stderr := ""; mem := 1 |}) ∧
  ∃ check body,
    requires (Examples.env_of LangCpp false true) Examples.site0
      (Examples.solde_positive false) = Some check ∧
    assert_exception (Examples.env_of LangCpp false true) Examples.site0 check
      Examples.logic_error = Some body ∧
    exec LP64 (glibc "bank") body Examples.w0
    = (Normal (), {| stderr := ""; mem := 1 |}).
Proof.
  assert (H : after_inclusion LangCpp false true (Examples.env_of LangCpp false true))
    by inclusion_by_evaluation LangCpp (flag_directives false true).
  assert (HK : handler_type Examples.logic_error
               ∈ [ContractViolated; std_logic_error; std_exception])
    by (apply elem_of_cons; right; apply elem_of_cons; left; reflexivity).
  split_and!; [exact H | reflexivity |].
  destruct (assert_exception_detects_violation LP64 (glibc "bank") _
              Examples.site0 Examples.site0 (Examples.solde_positive false)
              Examples.logic_error Examples.w0 false
              {| stderr := ""; mem := 1 |} H eq_refl HK)
    as (check & body & Hr & _ & Ha & Hx).
  exists check, body. split_and!; [exact Hr | exact Ha | exact Hx].
Defined.

(** X10. In default mode [assert_exception] cannot observe a violated
    contract: in C++ with neither [NDEBUG] nor [EXDEBUG],
    [assert_exception(requires(C), K)] on a false [C] aborts inside
    the [assert] of the check, with the diagnostic of [assert] for the
    place of the check; neither [catch] clause is reached and the
    report of [assert_exception] is not written. *)
Theorem assert_exception_around_default_check_aborts {Mem : Type}
    (widths : Widths) (libc : Libc) (env : Env) site site' (C : Cond Mem)
    (K : Handler) (w w' : World Mem) :
  after_inclusion LangCpp false false env →
  cond_eval C w = (Normal false, w') →
  ∃ check body,
    requires env site C = Some check ∧
    ensures env site C = Some check ∧
    assert_exception env site' check K = Some body ∧
    exec widths libc body w
    = (Aborted, with_stderr w' (assert_message libc (cond_text C) site)).
Proof.
  intros Hinc HC. apply after_inclusion_configured in Hinc.
  do 2 eexists. split_and!.
  - by eapply requires_configured.
  - by eapply ensures_configured.
  - by eapply assert_exception_configured.
  - cbn match. unfold assert_exception_argument, CONTRACTS_ASSERT_expansion.
    cbn [exec andb]. unfold libc_assert, bind. by rewrite HC.
Qed.

Lemma assert_exception_around_default_check_aborts_witness :
  after_inclusion LangCpp false false (Examples.env_of LangCpp false false) ∧
  cond_eval (Examples.solde_positive false) Examples.w0
  = (Normal false, {| stderr := ""; mem := 1 |}) ∧
  ∃ check body,
    requires (Examples.env_of LangCpp false false) Examples.site0
      (Examples.solde_positive false) = Some check ∧
    assert_exception (Examples.env_of LangCpp false false) Examples.site0 check
      Examples.logic_error = Some body ∧
    exec LP64 (glibc "bank") body Examples.w0
    = (Aborted,
       {| stderr := "bank: account.cpp:42: withdraw: Assertion `solde > 0' failed."
                    +:+ newline;
          mem := 1 |}).
Proof.
  assert (H : after_inclusion LangCpp false false
                (Examples.env_of LangCpp false false))
    by inclusion_by_evaluation LangCpp (flag_directives false false).
  split_and!; [exact H | reflexivity |].
  destruct (assert_exception_around_default_check_aborts LP64 (glibc "bank") _
              Examples.site0 Examples.site0 (Examples.solde_positive false)
              Examples.logic_error Examples.w0 {| stderr := ""; mem := 1 |}
              H eq_refl)
    as (check & body & Hr & _ & Ha & Hx).
  exists check, body. split_and!; [exact Hr | exact Ha | exact Hx].
Defined.

(** X11. [assert_exception] uses its [code] argument once: with
    debugging active the pieces of user code in the expansion are
    those of [code], each as often as in [code], so no side effect of
    [code] is doubled by the macro. *)
Theorem assert_exception_uses_code_once {Mem : Type} exdebug (env : Env) site
    (code : Code Mem) (K : Handler) :
  after_inclusion LangCpp false exdebug env →
  ∃ body,
    assert_exception env site code K = Some body ∧
    user_parts body = user_parts code.
Proof.
  intros Hinc. apply after_inclusion_configured in Hinc.
  eexists. split; [by eapply assert_exception_configured |].
  cbn [assert_exception_argument user_parts]. unfold assert_exception_argument.
  cbn [user_parts]. by rewrite !app_nil_r.
Qed.

Lemma assert_exception_uses_code_once_witness :
  after_inclusion LangCpp false false (Examples.env_of LangCpp false false) ∧
  ∃ body,
    assert_exception (Examples.env_of LangCpp false false) Examples.site0
      Examples.v_at_2 Examples.out_of_range = Some body ∧
    user_parts body = user_parts Examples.v_at_2.
Proof.
  assert (H : after_inclusion LangCpp false false
                (Examples.env_of LangCpp false false))
    by inclusion_by_evaluation LangCpp (flag_directives false false).
  split; [exact H |].
  exact (assert_exception_uses_code_once false _ Examples.site0 Examples.v_at_2
           Examples.out_of_range H).
Defined.

Lemma line_conversions (widths : Widths) (line : N) :
  to_unsigned_long widths (to_size_t widths line)
  = (line mod 2 ^ N.min (size_t_bits widths) (unsigned_long_bits widths))%N.
Proof.
  unfold to_unsigned_long, to_size_t.
  destruct (N.le_ge_cases (size_t_bits widths) (unsigned_long_bits widths))
    as [Hle | Hle].
  - rewrite N.min_l by done. apply N.mod_small.
    eapply N.lt_le_trans; [apply N.mod_lt; by apply N.pow_nonzero |].
    by apply N.pow_le_mono_r.
  - rewrite N.min_r by done.
    assert (E : (2 ^ size_t_bits widths
                 = 2 ^ unsigned_long_bits widths
                   * 2 ^ (size_t_bits widths - unsigned_long_bits widths))%N).
    { rewrite <- N.pow_add_r. f_equal. lia. }
    rewrite E, N.Div0.mod_mul_r.
    rewrite (N.mul_comm (2 ^ unsigned_long_bits widths)), N.Div0.mod_add.
    apply N.Div0.mod_mod.
Qed.

(** X12. The number [__contracts_assert_failed] prints is the line
    reduced modulo two to the smaller of the widths of [size_t] and
    [unsigned long]: the value goes through both types on its way to
    [%lu]. *)
Theorem printed_line_is_reduced {Mem : Type} (widths : Widths) (libc : Libc)
    (file msg : string) (line : N) (w : World Mem) :
  exec widths libc (Call_contracts_assert_failed file line msg) w
  = (Aborted,
     with_stderr w
       ("*** assertion failed at " +:+ file +:+ ":"
        +:+ decimal (line mod 2 ^ N.min (size_t_bits widths)
                                        (unsigned_long_bits widths))
        +:+ newline +:+ msg +:+ newline)).
Proof.
  cbn [exec].
  unfold __contracts_assert_failed, bind, fprintf_stderr, abort, failure_report.
  by rewrite line_conversions.
Qed.

(** X13. For a line number that fits both [size_t] and
    [unsigned long], [__contracts_assert_failed] appends exactly
    [*** assertion failed at <file>:<line>], a newline, the message and
    a newline to the standard error stream, touches nothing else, and
    aborts. *)
Theorem contracts_assert_failed_report {Mem : Type} (widths : Widths)
    (libc : Libc) (file msg : string) (line : N) (w : World Mem) :
  (line < 2 ^ size_t_bits widths)%N →
  (line < 2 ^ unsigned_long_bits widths)%N →
  exec widths libc (Call_contracts_assert_failed file line msg) w
  = (Aborted,
     {| stderr := stderr w +:+ ("*** assertion failed at " +:+ file +:+ ":"
                                +:+ decimal line +:+ newline +:+ msg
                                +:+ newline);
        mem := mem w |}).
Proof.
  intros H1 H2. cbn [exec].
  unfold __contracts_assert_failed, bind, fprintf_stderr, abort, failure_report,
    to_unsigned_long, to_size_t.
  by rewrite (N.mod_small line _ H1), (N.mod_small line _ H2).
Qed.

Lemma contracts_assert_failed_report_witness :
  (42 < 2 ^ size_t_bits LLP64)%N ∧
  (42 < 2 ^ unsigned_long_bits LLP64)%N ∧
  exec LLP64 (glibc "bank")
    (Call_contracts_assert_failed "account.cpp" 42 "message") Examples.w0
  = (Aborted,
     {| stderr := "*** assertion failed at account.cpp:42" +:+ newline
                  +:+ "message" +:+ newline;
        mem := 0 |}).
Proof.
  assert (H1 : (42 < 2 ^ size_t_bits LLP64)%N) by (vm_compute; reflexivity).
  assert (H2 : (42 < 2 ^ unsigned_long_bits LLP64)%N) by (vm_compute; reflexivity).
  split_and!; [exact H1 | exact H2 |].
  exact (contracts_assert_failed_report LLP64 (glibc "bank") "account.cpp"
           "message" 42 Examples.w0 H1 H2).
Defined.
